(** * The record handler of deepstream.io (src/record/record-handler.ts)

    A shallow embedding of the [RecordHandler] class and of the two
    module-level functions [onPermissionResponse] and [sendRecord].

    The handler is written in continuation-passing style over a cache, a
    storage layer, a permission handler, a record-request module and a
    per-record transition object.  None of these collaborators live in the
    file; what the handler calls on them is recorded as a trace of [Effect]s,
    and what they answer is read from an [Env].  A method is a state
    transformer on the two tables the handler owns ([transitions] and
    [recordRequestsInProgress]) that also produces its part of the trace.
    The two tables are plain JS objects used as maps from record names to
    values: a finite map holds the object's own keys, and [getProperty]
    reads a key the way the source does, through [Object.prototype].  A
    TypeError that leaves a method uncaught is the last event of its trace.
    The opaque [metaData] value, forwarded unchanged to every service call,
    is left out. *)

From stdpp Require Import base gmap strings list.

Local Open Scope string_scope.
Local Open Scope list_scope.

(** ** Constants: topics and record actions (../constants) *)

Module TOPIC.
Inductive t := RECORD | RECORD_SUBSCRIPTIONS.
End TOPIC.

Module RA.
Inductive t :=
| SUBSCRIBECREATEANDREAD | CREATEANDUPDATE | CREATEANDPATCH
| READ | HEAD | SUBSCRIBEANDHEAD
| UPDATE | PATCH | ERASE
| DELETE | DELETE_SUCCESS
| SUBSCRIBE | UNSUBSCRIBE
| LISTEN | UNLISTEN | LISTEN_ACCEPT | LISTEN_REJECT
| CREATE
| CREATEANDPATCH_WITH_WRITE_ACK | CREATEANDUPDATE_WITH_WRITE_ACK
| PATCH_WITH_WRITE_ACK | UPDATE_WITH_WRITE_ACK | ERASE_WITH_WRITE_ACK
| READ_RESPONSE | HEAD_RESPONSE | WRITE_ACKNOWLEDGEMENT
| SUBSCRIBE_ACK | UNSUBSCRIBE_ACK
| RECORD_NOT_FOUND | RECORD_LOAD_ERROR | RECORD_CREATE_ERROR
| RECORD_UPDATE_ERROR | RECORD_DELETE_ERROR
| VERSION_EXISTS | INVALID_VERSION | INVALID_PATCH_ON_HOTPATH
| MESSAGE_DENIED | MESSAGE_PERMISSION_ERROR.
End RA.

(** [WRITE_ACK_TO_ACTION]: a lookup in a JS object, [None] for a key that
    is not in the table. *)
Definition WRITE_ACK_TO_ACTION (a : RA.t) : option RA.t :=
  match a with
  | RA.CREATEANDPATCH_WITH_WRITE_ACK => Some RA.CREATEANDPATCH
  | RA.CREATEANDUPDATE_WITH_WRITE_ACK => Some RA.CREATEANDUPDATE
  | RA.PATCH_WITH_WRITE_ACK => Some RA.PATCH
  | RA.UPDATE_WITH_WRITE_ACK => Some RA.UPDATE
  | RA.ERASE_WITH_WRITE_ACK => Some RA.ERASE
  | _ => None
  end.

(** ** Data *)

(** An [Error] object handed to a callback; [None] stands for [null] or
    [undefined] wherever the source tests [if (error)]. *)
Inductive Error := MkError (text : string).

(** Structured values: record contents and message payloads. *)
#[local] Unset Elimination Schemes.
Inductive JValue :=
| JUndefined
| JNull
| JNum (z : Z)
| JStr (s : string)
| JErr (e : Error)
| JArr (items : list JValue)
| JObj (fields : list (string * JValue)).
#[local] Set Elimination Schemes.

(** [StorageRecord = { _v, _d }]. *)
Record StorageRecord := { _v : Z; _d : JValue }.

(** A message; every field marked [?] in the declaration is an [option].
    [isWriteAck] is only ever tested for truthiness, so [undefined] and
    [false] are one value. *)
Record Message := {
  topic : TOPIC.t;
  action : RA.t;
  name : string;
  originalAction : option RA.t;
  version : option Z;
  path : option string;
  data : option string;
  parsedData : option JValue;
  isWriteAck : bool;
  correlationId : option string
}.

(** The part of a socket wrapper the handler reads; [uuid] stands for the
    identity of the object. *)
Record SocketWrapper := {
  uuid : nat;
  user : string;
  authData : JValue;
  isRemote : bool
}.

Record DeepstreamConfig := {
  storageHotPathPrefixes : list string;
  storageExclusionPrefixes : list string
}.

(** Callbacks queued by [runWhenRecordStable] are closures the handler only
    stores and calls: a handle identifies one. *)
Definition Callback : Type := nat.

(** A [RecordTransition] object is known to the handler by reference. *)
Definition TransitionRef : Type := nat.

(** ** The trace of calls the handler makes on its collaborators *)

Inductive LogDetail :=
| DText (s : string)
| DAction (a : option RA.t)
| DError (e : Error)
| DStorage (e : Error).

Inductive LogEvent := LogRA (a : RA.t) | LogUnknownAction.

Inductive Effect :=
| SendMessage (socket : SocketWrapper) (msg : Message) (allowBuffering : bool)
| ParseData (socket : SocketWrapper) (msg : Message)
| LoggerError (event : LogEvent) (detail : LogDetail)
| CacheSet (recordName : string) (record : StorageRecord)
| StorageSet (recordName : string) (record : StorageRecord)
| CanPerformAction (username : string) (msg : Message) (auth : JValue)
    (socket : SocketWrapper)
| RecordRequest (recordName : string) (socket : SocketWrapper)
| Subscribe (msg : Message) (socket : SocketWrapper)
| Unsubscribe (msg : Message) (socket : SocketWrapper) (silent : bool)
| SendToSubscribers (recordName : string) (msg : Message) (noDelay : bool)
    (originalSender : SocketWrapper)
| ListenerHandle (socket : SocketWrapper) (msg : Message)
| NewRecordTransition (ref : TransitionRef) (recordName : string)
| TransitionAdd (ref : TransitionRef) (socket : SocketWrapper) (msg : Message)
    (upsert : option bool)
| TransitionSendVersionExists (ref : TransitionRef) (msg : Message)
    (v : option Z) (sender : SocketWrapper)
| TransitionDestroy (ref : TransitionRef)
| NewRecordDeletion (socket : SocketWrapper) (msg : Message)
| InvokeCallback (cb : Callback) (recordName : string)
| ThrowTypeError (member : string).

(** ** Plain objects used as maps *)

(** What every plain object inherits from [Object.prototype], by key: the
    standard methods, each a function with the [length] listed, and under
    ["__proto__"] the prototype object itself, which has no [length].  None
    of them has a member [push], [splice], [hasVersion], [add] or
    [destroy]. *)
Definition objectPrototypeMembers : list (string * option nat) :=
  [("constructor", Some 1); ("hasOwnProperty", Some 1);
   ("isPrototypeOf", Some 1); ("propertyIsEnumerable", Some 1);
   ("toLocaleString", Some 0); ("toString", Some 0); ("valueOf", Some 0);
   ("__defineGetter__", Some 2); ("__defineSetter__", Some 2);
   ("__lookupGetter__", Some 1); ("__lookupSetter__", Some 1);
   ("__proto__", None)].

Definition objectPrototype (key : string) : option (option nat) :=
  snd <$> List.find (λ member, String.eqb key member.1) objectPrototypeMembers.

(** The value of [table[key]] for a table made by [{}]. *)
Inductive Property (A : Type) :=
| Own (value : A)
| Inherited (length : option nat)
| Undefined.
Arguments Own {A} value.
Arguments Inherited {A} length.
Arguments Undefined {A}.

(** [table[key]]: an own key first, then the prototype.  Writing
    [table[key] = value] and [delete table[key]] act on the own keys; the
    handler never comes to write under ["__proto__"], whose inherited value
    makes it throw first. *)
Definition getProperty {A} (table : gmap string A) (key : string)
    : Property A :=
  match table !! key with
  | Some value => Own value
  | None =>
      match objectPrototype key with
      | Some length => Inherited length
      | None => Undefined
      end
  end.

(** ** Handler state and the monad of its methods *)

(** [nextTransition] numbers the objects made by [new RecordTransition]. *)
Record RecordHandler := {
  config : DeepstreamConfig;
  transitions : gmap string TransitionRef;
  recordRequestsInProgress : gmap string (list Callback);
  nextTransition : nat
}.

(** The constructor: both tables start empty. *)
Definition newRecordHandler (cfg : DeepstreamConfig) : RecordHandler :=
  {| config := cfg; transitions := ∅; recordRequestsInProgress := ∅;
     nextTransition := 0 |}.

Definition setTransitions
    (f : gmap string TransitionRef → gmap string TransitionRef)
    (h : RecordHandler) : RecordHandler :=
  {| config := config h; transitions := f (transitions h);
     recordRequestsInProgress := recordRequestsInProgress h;
     nextTransition := nextTransition h |}.

Definition setRequests
    (f : gmap string (list Callback) → gmap string (list Callback))
    (h : RecordHandler) : RecordHandler :=
  {| config := config h; transitions := transitions h;
     recordRequestsInProgress := f (recordRequestsInProgress h);
     nextTransition := nextTransition h |}.

Definition bumpTransition (h : RecordHandler) : RecordHandler :=
  {| config := config h; transitions := transitions h;
     recordRequestsInProgress := recordRequestsInProgress h;
     nextTransition := S (nextTransition h) |}.

(** A method takes the handler state to a result, the new state and the
    calls it made, oldest first. *)
Definition Method (A : Type) : Type :=
  RecordHandler → A * RecordHandler * list Effect.

Definition result {A} (r : A * RecordHandler * list Effect) : A := r.1.1.
Definition after {A} (r : A * RecordHandler * list Effect) : RecordHandler :=
  r.1.2.
Definition trace {A} (r : A * RecordHandler * list Effect) : list Effect :=
  r.2.

Definition pure {A} (a : A) : Method A := λ h, (a, h, []).

Definition andThen {A B} (m : Method A) (k : A → Method B) : Method B :=
  λ h, let r := m h in
       let r' := k (result r) (after r) in
       (result r', after r', trace r ++ trace r').

Notation "'do' x <- m ; k" := (andThen m (λ x, k))
  (at level 10, x name, m at level 100, k at level 200).
Notation "m ;;; k" := (andThen m (λ _, k))
  (at level 100, k at level 200, right associativity).

Definition call (e : Effect) : Method unit := λ h, (tt, h, [e]).
Definition this : Method RecordHandler := λ h, (h, h, []).
Definition modify (f : RecordHandler → RecordHandler) : Method unit :=
  λ h, (tt, f h, []).
Definition skip : Method unit := pure tt.

(** How a block of statements ends: at its end, or by an uncaught
    exception. *)
Inductive Completion := Returned | Threw.

(** ** The stability gate *)

(** [removeRecordRequest]. *)
Definition removeRecordRequest (recordName : string) : Method unit :=
  do h <- this;
  match getProperty (recordRequestsInProgress h) recordName with
  | Undefined => skip
  | Own [] | Inherited (Some 0) => modify (setRequests (delete recordName))
  | Own (callback :: rest) =>
      modify (setRequests <[recordName := rest]>) ;;;
      call (InvokeCallback callback recordName)
  | Inherited _ => call (ThrowTypeError "splice")
  end.

(** [runWhenRecordStable]. *)
Definition runWhenRecordStable (recordName : string) (callback : Callback)
    : Method unit :=
  do h <- this;
  match getProperty (recordRequestsInProgress h) recordName with
  | Undefined | Own [] | Inherited (Some 0) =>
      modify (setRequests <[recordName := []]>) ;;;
      call (InvokeCallback callback recordName)
  | Own queue =>
      modify (setRequests <[recordName := queue ++ [callback]]>)
  | Inherited _ => call (ThrowTypeError "push")
  end.

(** ** What the collaborators answer *)

(** The outcome a record request reports to its caller: [onComplete] with
    the record or with nothing, or [onError] with an event and a text. *)
Inductive RequestOutcome :=
| Loaded (record : option StorageRecord)
| LoadFailed (event : RA.t) (errorMessage : string).

(** Everything the handler learns from outside while it runs.  The
    completion callbacks of asynchronous calls are run with the answer found
    here; [storageAnswersFirst] orders the two completions when a cache and
    a storage write are in flight together.  A callback runs either inside
    the call that registers it or after the method that made the call has
    returned: [requestAnswersInCall] says which for a record request,
    [cacheAnswersInSet] for [cache.set]; for the other calls the handler
    does nothing between the call and its return, so the two cases give the
    same trace.  [parseData] is what
    [socketWrapper.parseData] leaves in [parsedData], [hasVersion] the
    answer of a transition object, [deletionCompletes] whether the
    [RecordDeletion] started by [delete] calls back. *)
Record Env := {
  canPerformAction :
    string → Message → JValue → SocketWrapper → option Error * bool;
  requestOutcome : string → SocketWrapper → RequestOutcome;
  cacheSet : string → StorageRecord → option Error;
  storageSet : string → StorageRecord → option Error;
  storageAnswersFirst : bool;
  cacheAnswersInSet : bool;
  requestAnswersInCall : bool;
  parseData : SocketWrapper → Message → option JValue;
  hasVersion : TransitionRef → option Z → bool;
  getLocalSubscribers : string → list SocketWrapper;
  deletionCompletes : SocketWrapper → Message → bool
}.

(** ** Building messages *)

(** An object literal [{ topic, action, name }]; the other fields are set
    one by one as the literal lists them. *)
Definition literal (a : RA.t) (n : string) : Message :=
  {| topic := TOPIC.RECORD; action := a; name := n; originalAction := None;
     version := None; path := None; data := None; parsedData := None;
     isWriteAck := false; correlationId := None |}.

(** [Object.assign({}, message, { action })], and the same value for
    [Object.assign(message, { action })] on the object itself. *)
Definition withAction (a : RA.t) (m : Message) : Message :=
  {| topic := topic m; action := a; name := name m;
     originalAction := originalAction m; version := version m;
     path := path m; data := data m; parsedData := parsedData m;
     isWriteAck := isWriteAck m; correlationId := correlationId m |}.

Definition withOriginalAction (a : RA.t) (m : Message) : Message :=
  {| topic := topic m; action := action m; name := name m;
     originalAction := Some a; version := version m;
     path := path m; data := data m; parsedData := parsedData m;
     isWriteAck := isWriteAck m; correlationId := correlationId m |}.

Definition withVersion (v : Z) (m : Message) : Message :=
  {| topic := topic m; action := action m; name := name m;
     originalAction := originalAction m; version := Some v;
     path := path m; data := data m; parsedData := parsedData m;
     isWriteAck := isWriteAck m; correlationId := correlationId m |}.

Definition withParsedData (d : option JValue) (m : Message) : Message :=
  {| topic := topic m; action := action m; name := name m;
     originalAction := originalAction m; version := version m;
     path := path m; data := data m; parsedData := d;
     isWriteAck := isWriteAck m; correlationId := correlationId m |}.

Definition withCorrelationId (c : option string) (m : Message) : Message :=
  {| topic := topic m; action := action m; name := name m;
     originalAction := originalAction m; version := version m;
     path := path m; data := data m; parsedData := parsedData m;
     isWriteAck := isWriteAck m; correlationId := c |}.

(** Truthiness of an optional string: [undefined] and the empty string are
    falsy. *)
Definition truthy (s : option string) : bool :=
  match s with
  | None | Some "" => false
  | Some _ => true
  end.

(** [s.indexOf(pattern)]: the first position of [pattern] in [s], or -1. *)
Definition indexOf (s pattern : string) : Z :=
  match String.index 0 pattern s with
  | Some i => Z.of_nat i
  | None => (-1)%Z
  end.

(** Modelled from the spec: [isExcluded] of ../utils/utils, which is not in
    the file.  [storageExclusionPrefixes] is a list of name prefixes that
    suppress durable-storage writes: a name is excluded when one of them is
    a prefix of it. *)
Definition isExcluded (exclusionPrefixes : list string) (recordName : string)
    : bool :=
  existsb (λ p, String.prefix p recordName) exclusionPrefixes.

Definition sendMessage (socket : SocketWrapper) (msg : Message) : Method unit :=
  call (SendMessage socket msg false).

(** ** Module-level functions *)

(** [sendRecord]. *)
Definition sendRecord (recordName : string) (record : StorageRecord)
    (socketWrapper : SocketWrapper) : Method unit :=
  sendMessage socketWrapper
    (withParsedData (Some (_d record))
       (withVersion (_v record) (literal RA.READ_RESPONSE recordName))).

(** [onPermissionResponse], with its first four arguments bound by
    [permissionAction]. *)
Definition onPermissionResponse (socketWrapper : SocketWrapper)
    (message : Message) (originalAction : RA.t) (successCallback : Method unit)
    (error : option Error) (canPerform : bool) : Method unit :=
  if bool_decide (is_Some error) || negb canPerform then
    do action <-
      match error with
      | Some e =>
          call (LoggerError (LogRA RA.MESSAGE_PERMISSION_ERROR) (DError e)) ;;;
          pure RA.MESSAGE_PERMISSION_ERROR
      | None => pure RA.MESSAGE_DENIED
      end;
    let msg := withOriginalAction originalAction (literal action (name message)) in
    let msg :=
      if truthy (correlationId message)
      then withCorrelationId (correlationId message) msg
      else msg in
    sendMessage socketWrapper msg
  else successCallback.

(** Modelled from the spec: [recordRequest] of ./record-request, which is
    not in the file.  It loads the record ("load(name) -> (record | null)",
    a transport error completing with an error event) and reports to
    exactly one of the two callbacks, passing the name and the socket it
    was given, as the callbacks written in the handler expect them.  The
    load is asynchronous: the call returns what is left to run when the
    load answers, which is nothing when it answered inside the call. *)
Definition recordRequest (env : Env) (recordName : string)
    (socketWrapper : SocketWrapper)
    (onComplete : option StorageRecord → string → SocketWrapper → Method unit)
    (onError : RA.t → string → string → SocketWrapper → Method unit)
    : Method (Method unit) :=
  let answer :=
    match requestOutcome env recordName socketWrapper with
    | Loaded record => onComplete record recordName socketWrapper
    | LoadFailed event errorMessage =>
        onError event errorMessage recordName socketWrapper
    end in
  call (RecordRequest recordName socketWrapper) ;;;
  if requestAnswersInCall env then answer ;;; pure skip else pure answer.

Fixpoint forEach {A} (l : list A) (body : A → Method unit) : Method unit :=
  match l with
  | [] => skip
  | x :: rest => body x ;;; forEach rest body
  end.

(** ** Methods of [RecordHandler] *)

Section Methods.
Variable env : Env.

(** [permissionAction]. *)
Definition permissionAction (actionToPermission : RA.t) (message : Message)
    (originalAction : RA.t) (socketWrapper : SocketWrapper)
    (successCallback : Method unit) : Method unit :=
  let copyWithAction := withAction actionToPermission message in
  call (CanPerformAction (user socketWrapper) copyWithAction
          (authData socketWrapper) socketWrapper) ;;;
  let answer :=
    canPerformAction env (user socketWrapper) copyWithAction
      (authData socketWrapper) socketWrapper in
  onPermissionResponse socketWrapper message originalAction successCallback
    answer.1 answer.2.

(** [broadcastUpdate]. *)
Definition broadcastUpdate (recordName : string) (message : Message)
    (noDelay : bool) (originalSender : SocketWrapper) : Method unit :=
  call (SendToSubscribers recordName message noDelay originalSender).

(** [snapshot]. *)
Definition snapshot (socketWrapper : SocketWrapper) (message : Message)
    : Method unit :=
  let onComplete record recordName socket :=
    match record with
    | Some r => sendRecord recordName r socket
    | None =>
        sendMessage socket
          (withOriginalAction (action message)
             (literal RA.RECORD_NOT_FOUND (name message)))
    end in
  let onError event (errorMessage : string) recordName socket :=
    sendMessage socket
      (withOriginalAction (action message) (literal event recordName)) in
  do later <- recordRequest env (name message) socketWrapper onComplete onError;
  later.

(** [head] up to its return; the result is what is left to run when the
    load answers. *)
Definition headCall (socketWrapper : SocketWrapper) (message : Message)
    : Method (Method unit) :=
  let onComplete (record : option StorageRecord) (_ : string)
      (_ : SocketWrapper) :=
    sendMessage socketWrapper
      (withVersion (match record with Some r => _v r | None => (-1)%Z end)
         (literal RA.HEAD_RESPONSE (name message))) in
  let onError event (errorMessage : string) recordName socket :=
    sendMessage socket
      (withOriginalAction (action message) (literal event recordName)) in
  recordRequest env (name message) socketWrapper onComplete onError.

(** [head] as [handle] calls it, with nothing to do after it. *)
Definition head (socketWrapper : SocketWrapper) (message : Message)
    : Method unit :=
  do later <- headCall socketWrapper message;
  later.

(** [subscribeAndHead]: the subscription follows the return of [head]. *)
Definition subscribeAndHead (socketWrapper : SocketWrapper)
    (message : Message) : Method unit :=
  do later <- headCall socketWrapper message;
  call (Subscribe (withAction RA.SUBSCRIBE message) socketWrapper) ;;;
  later.

(** [readAndSubscribe]. *)
Definition readAndSubscribe (message : Message) (record : StorageRecord)
    (socketWrapper : SocketWrapper) : Method unit :=
  permissionAction RA.READ message (action message) socketWrapper
    (call (Subscribe (withAction RA.SUBSCRIBE message) socketWrapper) ;;;
     sendRecord (name message) record socketWrapper).

(** [create]: the cache write, then the storage write unless the name is
    excluded.  The callback of the cache write runs inside [cache.set] or,
    with that of the storage write, after [create] has returned. *)
Definition create (message : Message) (socketWrapper : SocketWrapper)
    (callback : option (string → SocketWrapper → Method unit)) : Method unit :=
  let recordName := name message in
  let record := {| _v := 0; _d := JObj [] |} in
  let onCache (error : option Error) : Method unit :=
    match error with
    | Some _ =>
        call (LoggerError (LogRA RA.RECORD_CREATE_ERROR) (DText recordName)) ;;;
        sendMessage socketWrapper
          (withOriginalAction (action message)
             (literal RA.RECORD_CREATE_ERROR (name message)))
    | None =>
        match callback with
        | Some cb => cb recordName socketWrapper
        | None => readAndSubscribe message record socketWrapper
        end
    end in
  let onStorage (error : option Error) : Method unit :=
    match error with
    | Some e => call (LoggerError (LogRA RA.RECORD_CREATE_ERROR) (DStorage e))
    | None => skip
    end in
  call (CacheSet recordName record) ;;;
  (if cacheAnswersInSet env then onCache (cacheSet env recordName record)
   else skip) ;;;
  do h <- this;
  if negb (isExcluded (storageExclusionPrefixes (config h)) (name message))
  then
    call (StorageSet recordName record) ;;;
    if cacheAnswersInSet env
    then onStorage (storageSet env recordName record)
    else if storageAnswersFirst env
    then onStorage (storageSet env recordName record) ;;;
         onCache (cacheSet env recordName record)
    else onCache (cacheSet env recordName record) ;;;
         onStorage (storageSet env recordName record)
  else
    if cacheAnswersInSet env then skip
    else onCache (cacheSet env recordName record).

(** [createOrRead]. *)
Definition createOrRead (socketWrapper : SocketWrapper) (message : Message)
    : Method unit :=
  let onComplete record (recordName : string) socket :=
    match record with
    | Some r => readAndSubscribe message r socket
    | None =>
        permissionAction RA.CREATE message (action message) socket
          (create message socket None)
    end in
  let onError (_ : RA.t) (_ _ : string) (_ : SocketWrapper) := skip in
  do later <- recordRequest env (name message) socketWrapper onComplete onError;
  later.

(** [handleForceWriteAcknowledgement]. *)
Definition handleForceWriteAcknowledgement (socketWrapper : SocketWrapper)
    (message : Message) (cacheResponse storageResponse : bool)
    (error : option Error) : Method unit :=
  if storageResponse && cacheResponse then
    call (SendMessage socketWrapper
            (withParsedData
               (Some (JArr [ match version message with
                             | Some v => JNum v
                             | None => JUndefined
                             end;
                             match error with
                             | Some e => JErr e
                             | None => JNull
                             end ]))
               (literal RA.WRITE_ACKNOWLEDGEMENT (name message)))
            true)
  else skip.

(** The three variables the two callbacks of [forceWrite] close over. *)
Record ForceWriteState := {
  cacheResponse : bool;
  storageResponse : bool;
  writeError : option Error
}.

(** [writeError || error || null]. *)
Definition orError (writeError error : option Error) : option Error :=
  match writeError with
  | Some e => Some e
  | None => error
  end.

(** The callback [forceWrite] gives to [storage.set]. *)
Definition forceWriteStorageCallback (socketWrapper : SocketWrapper)
    (message : Message) (writeAck : bool) (error : option Error)
    (st : ForceWriteState) : Method ForceWriteState :=
  if writeAck then
    let st' := {| cacheResponse := cacheResponse st; storageResponse := true;
                  writeError := orError (writeError st) error |} in
    handleForceWriteAcknowledgement socketWrapper message
      (cacheResponse st') (storageResponse st') (writeError st') ;;;
    pure st'
  else pure st.

(** The callback [forceWrite] gives to [cache.set]. *)
Definition forceWriteCacheCallback (recordName : string)
    (socketWrapper : SocketWrapper) (message : Message) (writeAck : bool)
    (error : option Error) (st : ForceWriteState) : Method ForceWriteState :=
  (match error with
   | None => broadcastUpdate recordName message false socketWrapper
   | Some _ => skip
   end) ;;;
  if writeAck then
    let st' := {| cacheResponse := true; storageResponse := storageResponse st;
                  writeError := orError (writeError st) error |} in
    handleForceWriteAcknowledgement socketWrapper message
      (cacheResponse st') (storageResponse st') (writeError st') ;;;
    pure st'
  else pure st.

(** [forceWrite]: [parseData] fills in [parsedData] on the message object,
    so every later use of the message sees it. *)
Definition forceWrite (recordName : string) (message : Message)
    (socketWrapper : SocketWrapper) : Method unit :=
  call (ParseData socketWrapper message) ;;;
  let message := withParsedData (parseData env socketWrapper message) message in
  let record := {| _v := 0; _d := default JUndefined (parsedData message) |} in
  let writeAck := isWriteAck message in
  let st := {| cacheResponse := false; storageResponse := false;
               writeError := None |} in
  call (StorageSet recordName record) ;;;
  call (CacheSet recordName record) ;;;
  if storageAnswersFirst env then
    do st <- forceWriteStorageCallback socketWrapper message writeAck
               (storageSet env recordName record) st;
    do _ <- forceWriteCacheCallback recordName socketWrapper message writeAck
               (cacheSet env recordName record) st;
    skip
  else
    do st <- forceWriteCacheCallback recordName socketWrapper message writeAck
               (cacheSet env recordName record) st;
    do _ <- forceWriteStorageCallback socketWrapper message writeAck
               (storageSet env recordName record) st;
    skip.

(** [update]. *)
Definition update (socketWrapper : SocketWrapper) (message : Message)
    (upsert : bool) : Method unit :=
  let recordName := name message in
  let version := version message in
  let isPatch := bool_decide (is_Some (path message)) in
  let message := withAction (if isPatch then RA.PATCH else RA.UPDATE) message in
  if isRemote socketWrapper then
    broadcastUpdate recordName message false socketWrapper
  else
    do h <- this;
    match getProperty (transitions h) recordName with
    | Own transition =>
        if hasVersion env transition version then
          call (TransitionSendVersionExists transition message version
                  socketWrapper)
        else
          call (TransitionAdd transition socketWrapper message (Some upsert))
    | Inherited _ => call (ThrowTypeError "hasVersion")
    | Undefined =>
        let transition := nextTransition h in
        modify bumpTransition ;;;
        call (NewRecordTransition transition recordName) ;;;
        modify (setTransitions <[recordName := transition]>) ;;;
        call (TransitionAdd transition socketWrapper message (Some upsert))
    end.

(** The loop of [createAndUpdate] over [storageHotPathPrefixes]; the result
    tells whether the body returned from the method. *)
Fixpoint hotPathLoop (prefixes : list string) (recordName : string)
    (isPatch : bool) (message : Message) (originalAction : RA.t)
    (socketWrapper : SocketWrapper) : Method bool :=
  match prefixes with
  | [] => pure false
  | pattern :: rest =>
      if negb (indexOf recordName pattern =? -1)%Z && negb isPatch then
        permissionAction RA.CREATE message originalAction socketWrapper
          (permissionAction RA.UPDATE message originalAction socketWrapper
             (forceWrite recordName message socketWrapper)) ;;;
        pure true
      else if isPatch then
        sendMessage socketWrapper
          (withOriginalAction (action message)
             (literal RA.INVALID_PATCH_ON_HOTPATH recordName)) ;;;
        pure true
      else
        hotPathLoop rest recordName isPatch message originalAction socketWrapper
  end.

(** [createAndUpdate]. *)
Definition createAndUpdate (socketWrapper : SocketWrapper) (message : Message)
    : Method unit :=
  let recordName := name message in
  let isPatch := bool_decide (is_Some (path message)) in
  let originalAction := action message in
  let message := withAction (if isPatch then RA.PATCH else RA.UPDATE) message in
  do h <- this;
  do returned <-
    hotPathLoop (storageHotPathPrefixes (config h)) recordName isPatch message
      originalAction socketWrapper;
  if returned : bool then skip
  else
    do h <- this;
    match getProperty (transitions h) recordName with
    | Own transition =>
        permissionAction (action message) message originalAction socketWrapper
          (call (TransitionAdd transition socketWrapper message None))
    | Inherited _ =>
        permissionAction (action message) message originalAction socketWrapper
          (call (ThrowTypeError "add"))
    | Undefined =>
        permissionAction RA.CREATE message originalAction socketWrapper
          (permissionAction RA.UPDATE message originalAction socketWrapper
             (update socketWrapper message true))
    end.

(** [transitionComplete]. *)
Definition transitionComplete (recordName : string) : Method unit :=
  modify (setTransitions (delete recordName)).

(** [onDeleted]. *)
Definition onDeleted (recordName : string) (message : Message)
    (originalSender : SocketWrapper) : Method unit :=
  broadcastUpdate recordName message true originalSender ;;;
  forEach (getLocalSubscribers env recordName)
    (λ subscriber, call (Unsubscribe message subscriber true)).

(** The block that opens both [delete] and [remoteDelete]; the result tells
    whether the method goes on or is left by the TypeError of [destroy]. *)
Definition destroyTransition (recordName : string) : Method Completion :=
  do h <- this;
  match getProperty (transitions h) recordName with
  | Own transition =>
      call (TransitionDestroy transition) ;;;
      modify (setTransitions (delete recordName)) ;;;
      pure Returned
  | Inherited _ => call (ThrowTypeError "destroy") ;;; pure Threw
  | Undefined => pure Returned
  end.

(** [delete]; the [RecordDeletion] it starts calls [onDeleted] back when the
    deletion went through. *)
Definition delete_ (socketWrapper : SocketWrapper) (message : Message)
    : Method unit :=
  let recordName := name message in
  do completion <- destroyTransition recordName;
  match completion with
  | Threw => skip
  | Returned =>
      call (NewRecordDeletion socketWrapper message) ;;;
      if deletionCompletes env socketWrapper message
      then onDeleted recordName message socketWrapper
      else skip
  end.

(** [remoteDelete]. *)
Definition remoteDelete (socketWrapper : SocketWrapper) (message : Message)
    : Method unit :=
  let recordName := name message in
  do completion <- destroyTransition recordName;
  match completion with
  | Threw => skip
  | Returned => onDeleted recordName message socketWrapper
  end.

(** [handle]. *)
Definition handle (socketWrapper : SocketWrapper) (message : Message)
    : Method unit :=
  let action :=
    if isWriteAck message then WRITE_ACK_TO_ACTION (action message)
    else Some (action message) in
  match action with
  | Some RA.SUBSCRIBECREATEANDREAD => createOrRead socketWrapper message
  | Some RA.CREATEANDUPDATE | Some RA.CREATEANDPATCH =>
      createAndUpdate socketWrapper message
  | Some RA.READ => snapshot socketWrapper message
  | Some RA.HEAD => head socketWrapper message
  | Some RA.SUBSCRIBEANDHEAD => subscribeAndHead socketWrapper message
  | Some RA.UPDATE | Some RA.PATCH | Some RA.ERASE =>
      update socketWrapper message (isWriteAck message || false)
  | Some RA.DELETE => delete_ socketWrapper message
  | Some RA.DELETE_SUCCESS => remoteDelete socketWrapper message
  | Some RA.UNSUBSCRIBE => call (Unsubscribe message socketWrapper false)
  | Some RA.LISTEN | Some RA.UNLISTEN | Some RA.LISTEN_ACCEPT
  | Some RA.LISTEN_REJECT => call (ListenerHandle socketWrapper message)
  | _ => call (LoggerError LogUnknownAction (DAction action))
  end.

End Methods.

(** ** Runs of the stability gate on one record name *)

Inductive GateCall :=
| RunWhenRecordStable (callback : Callback)
| RemoveRecordRequest.

Definition gateCall (recordName : string) (c : GateCall) : Method unit :=
  match c with
  | RunWhenRecordStable callback => runWhenRecordStable recordName callback
  | RemoveRecordRequest => removeRecordRequest recordName
  end.


(** The callbacks handed to [runWhenRecordStable], in call order. *)
Definition registered (cs : list GateCall) : list Callback :=
  omap (λ c, match c with
             | RunWhenRecordStable callback => Some callback
             | RemoveRecordRequest => None
             end) cs.

(** The callbacks a trace invokes, in invocation order. *)
Definition invokedCallbacks (tr : list Effect) : list Callback :=
  omap (λ e, match e with
             | InvokeCallback callback _ => Some callback
             | _ => None
             end) tr.

(** The queue of a name, an absent one read as empty. *)
Definition pending (h : RecordHandler) (recordName : string) : list Callback :=
  default [] (recordRequestsInProgress h !! recordName).

(** The names that the gate, finding no queue of their own, reads as a queue
    that is not empty: those that every object inherits with a [length]
    other than 0, or with none. *)
Definition inheritedQueue (recordName : string) : bool :=
  match objectPrototype recordName with
  | Some (Some 0) | None => false
  | Some _ => true
  end.


(** ** Runs of the handler through its public methods *)

Inductive PublicCall :=
| Handle (env : Env) (socketWrapper : SocketWrapper) (message : Message)
| HandleForceWriteAcknowledgement (socketWrapper : SocketWrapper)
    (message : Message) (cacheResponse storageResponse : bool)
    (error : option Error)
| BroadcastUpdate (recordName : string) (message : Message) (noDelay : bool)
    (originalSender : SocketWrapper)
| TransitionComplete (recordName : string)
| StabilityGate (recordName : string) (c : GateCall).

Definition invoke (c : PublicCall) : Method unit :=
  match c with
  | Handle env socketWrapper message => handle env socketWrapper message
  | HandleForceWriteAcknowledgement socketWrapper message cacheResponse
      storageResponse error =>
      handleForceWriteAcknowledgement socketWrapper message cacheResponse
        storageResponse error
  | BroadcastUpdate recordName message noDelay originalSender =>
      broadcastUpdate recordName message noDelay originalSender
  | TransitionComplete recordName => transitionComplete recordName
  | StabilityGate recordName c => gateCall recordName c
  end.

(** The states a handler built with [cfg] can be in between two calls. *)
Inductive reachable (cfg : DeepstreamConfig) : RecordHandler → Prop :=
| reachable_new : reachable cfg (newRecordHandler cfg)
| reachable_call h c :
    reachable cfg h → reachable cfg (after (invoke c h)).

(** The calls of a trace that make or destroy a transition object. *)
Definition isTableEvent (e : Effect) : bool :=
  match e with
  | NewRecordTransition _ _ | TransitionDestroy _ => true
  | _ => false
  end.

Definition tableEvents (tr : list Effect) : list Effect :=
  List.filter isTableEvent tr.

(** The writes a trace sends to the cache and to the storage layer. *)
Definition isBackendWrite (e : Effect) : bool :=
  match e with
  | CacheSet _ _ | StorageSet _ _ => true
  | _ => false
  end.

Definition backendWrites (tr : list Effect) : list Effect :=
  List.filter isBackendWrite tr.

(** The test of the hot-path loop, over the whole list: some configured
    pattern occurs in the name. *)
Definition matchesHotPath (prefixes : list string) (recordName : string)
    : bool :=
  existsb (λ pattern, negb (indexOf recordName pattern =? -1)%Z) prefixes.

(** Every object in the table was numbered before the next one to make. *)
Definition numbered (h : RecordHandler) : Prop :=
  ∀ recordName ref,
    transitions h !! recordName = Some ref → ref < nextTransition h.

(** The chain [createAndUpdate] starts for a full write on the hot path. *)
Definition hotPathWrite (env : Env) (recordName : string) (message : Message)
    (originalAction : RA.t) (socketWrapper : SocketWrapper) : Method unit :=
  permissionAction env RA.CREATE message originalAction socketWrapper
    (permissionAction env RA.UPDATE message originalAction socketWrapper
       (forceWrite env recordName message socketWrapper)).

(** ** How a method changes the table of transitions *)

(** A method is quiet when it leaves the table and the numbering of
    transition objects alone and neither makes nor destroys a transition. *)
Definition quiet {A} (m : Method A) : Prop :=
  ∀ h, transitions (after (m h)) = transitions h
       ∧ nextTransition (after (m h)) = nextTransition h
       ∧ tableEvents (trace (m h)) = [].

(** The three things [handle] can do to the table: nothing; make one object
    for a name that has none and enter it; destroy the object entered for a
    name and drop the entry. *)
Inductive TableChange (h h' : RecordHandler) (tr : list Effect) : Prop :=
| table_unchanged :
    transitions h' = transitions h →
    nextTransition h' = nextTransition h →
    tableEvents tr = [] →
    TableChange h h' tr
| table_created recordName :
    transitions h !! recordName = None →
    transitions h' = <[recordName := nextTransition h]> (transitions h) →
    nextTransition h' = S (nextTransition h) →
    tableEvents tr = [NewRecordTransition (nextTransition h) recordName] →
    TableChange h h' tr
| table_destroyed recordName ref :
    transitions h !! recordName = Some ref →
    transitions h' = delete recordName (transitions h) →
    nextTransition h' = nextTransition h →
    tableEvents tr = [TransitionDestroy ref] →
    TableChange h h' tr.

Definition alters {A} (m : Method A) : Prop :=
  ∀ h, TableChange h (after (m h)) (trace (m h)).

(** ** Sample inputs *)

Module Sample.

Definition alice : SocketWrapper :=
  {| uuid := 1; user := "alice"; authData := JNull; isRemote := false |}.

Definition plainConfig : DeepstreamConfig :=
  {| storageHotPathPrefixes := []; storageExclusionPrefixes := [] |}.

(** One hot-path pattern, which is an exclusion prefix as well. *)
Definition hotConfig : DeepstreamConfig :=
  {| storageHotPathPrefixes := ["hot/"]; storageExclusionPrefixes := ["hot/"] |}.

Definition request (a : RA.t) (n : string) : Message :=
  {| topic := TOPIC.RECORD; action := a; name := n; originalAction := None;
     version := None; path := None; data := None; parsedData := None;
     isWriteAck := false; correlationId := None |}.

(** Every check allowed, every backend call successful, no record stored. *)
Definition calm : Env :=
  {| canPerformAction := λ _ _ _ _, (None, true);
     requestOutcome := λ _ _, Loaded None;
     cacheSet := λ _ _, None;
     storageSet := λ _ _, None;
     storageAnswersFirst := true;
     cacheAnswersInSet := false;
     requestAnswersInCall := false;
     parseData := λ _ m, JStr <$> data m;
     hasVersion := λ _ _, false;
     getLocalSubscribers := λ _, [];
     deletionCompletes := λ _ _, true |}.

(** As [calm], with every permission check denied. *)
Definition denying : Env :=
  {| canPerformAction := λ _ _ _ _, (None, false);
     requestOutcome := requestOutcome calm;
     cacheSet := cacheSet calm;
     storageSet := storageSet calm;
     storageAnswersFirst := storageAnswersFirst calm;
     cacheAnswersInSet := cacheAnswersInSet calm;
     requestAnswersInCall := requestAnswersInCall calm;
     parseData := parseData calm;
     hasVersion := hasVersion calm;
     getLocalSubscribers := getLocalSubscribers calm;
     deletionCompletes := deletionCompletes calm |}.

(** As [calm], with every permission check failing in the evaluator. *)
Definition erring : Env :=
  {| canPerformAction := λ _ _ _ _, (Some (MkError "rule crashed"), false);
     requestOutcome := requestOutcome calm;
     cacheSet := cacheSet calm;
     storageSet := storageSet calm;
     storageAnswersFirst := storageAnswersFirst calm;
     cacheAnswersInSet := cacheAnswersInSet calm;
     requestAnswersInCall := requestAnswersInCall calm;
     parseData := parseData calm;
     hasVersion := hasVersion calm;
     getLocalSubscribers := getLocalSubscribers calm;
     deletionCompletes := deletionCompletes calm |}.

(** As [calm], with the record found at version 3. *)
Definition stored : Env :=
  {| canPerformAction := canPerformAction calm;
     requestOutcome := λ _ _, Loaded (Some {| _v := 3; _d := JObj [] |});
     cacheSet := cacheSet calm;
     storageSet := storageSet calm;
     storageAnswersFirst := storageAnswersFirst calm;
     cacheAnswersInSet := cacheAnswersInSet calm;
     requestAnswersInCall := requestAnswersInCall calm;
     parseData := parseData calm;
     hasVersion := hasVersion calm;
     getLocalSubscribers := getLocalSubscribers calm;
     deletionCompletes := deletionCompletes calm |}.

(** As [calm], with every record request failing. *)
Definition failing : Env :=
  {| canPerformAction := canPerformAction calm;
     requestOutcome := λ _ _, LoadFailed RA.RECORD_LOAD_ERROR "cache down";
     cacheSet := cacheSet calm;
     storageSet := storageSet calm;
     storageAnswersFirst := storageAnswersFirst calm;
     cacheAnswersInSet := cacheAnswersInSet calm;
     requestAnswersInCall := requestAnswersInCall calm;
     parseData := parseData calm;
     hasVersion := hasVersion calm;
     getLocalSubscribers := getLocalSubscribers calm;
     deletionCompletes := deletionCompletes calm |}.

End Sample.

(** ** Further views of a trace and of a run *)

(** The action [handle] dispatches on. *)
Definition dispatched (message : Message) : option RA.t :=
  if isWriteAck message then WRITE_ACK_TO_ACTION (action message)
  else Some (action message).

(** What [update] and [createAndUpdate] leave in [message.action]. *)
Definition writeAction (message : Message) : RA.t :=
  if bool_decide (is_Some (path message)) then RA.PATCH else RA.UPDATE.

(** The messages a trace sends, with the socket each one goes to. *)
Definition sentMessages (tr : list Effect) : list (SocketWrapper * Message) :=
  omap (λ e, match e with
             | SendMessage socket msg _ => Some (socket, msg)
             | _ => None
             end) tr.

(** The permission handler allows the action on the message, without an
    error. *)
Definition allows (env : Env) (socketWrapper : SocketWrapper)
    (message : Message) (a : RA.t) : bool :=
  match canPerformAction env (user socketWrapper) (withAction a message)
          (authData socketWrapper) socketWrapper with
  | (None, true) => true
  | _ => false
  end.

(** The actions a trace asks the permission handler about. *)
Definition permissionChecks (tr : list Effect) : list RA.t :=
  omap (λ e, match e with
             | CanPerformAction _ msg _ _ => Some (action msg)
             | _ => None
             end) tr.

(** The subscriptions a trace makes, with the socket each one is for. *)
Definition subscriptions (tr : list Effect) : list (Message * SocketWrapper) :=
  omap (λ e, match e with
             | Subscribe msg socket => Some (msg, socket)
             | _ => None
             end) tr.

(** The message an effect hands on to a transition or to the subscribers. *)
Definition forwarded (e : Effect) : option Message :=
  match e with
  | SendToSubscribers _ msg _ _ => Some msg
  | TransitionAdd _ _ msg _ => Some msg
  | TransitionSendVersionExists _ msg _ _ => Some msg
  | _ => None
  end.

(** A run of stability-gate calls over any names. *)
Definition gateRun (cs : list (string * GateCall)) : Method unit :=
  forEach cs (λ c, gateCall c.1 c.2).

(** No name has a callback waiting. *)
Definition idle (h : RecordHandler) : Prop :=
  ∀ recordName queue,
    recordRequestsInProgress h !! recordName = Some queue → queue = [].

(** More sample inputs. *)
Module Cases.

Definition peer : SocketWrapper :=
  {| uuid := 2; user := "peer"; authData := JNull; isRemote := true |}.

Definition bob : SocketWrapper :=
  {| uuid := 3; user := "bob"; authData := JNull; isRemote := false |}.

(** As [Sample.calm], with a cache that refuses every write. *)
Definition cacheDown : Env :=
  {| canPerformAction := canPerformAction Sample.calm;
     requestOutcome := requestOutcome Sample.calm;
     cacheSet := λ _ _, Some (MkError "cache down");
     storageSet := storageSet Sample.calm;
     storageAnswersFirst := storageAnswersFirst Sample.calm;
     cacheAnswersInSet := cacheAnswersInSet Sample.calm;
     requestAnswersInCall := requestAnswersInCall Sample.calm;
     parseData := parseData Sample.calm;
     hasVersion := hasVersion Sample.calm;
     getLocalSubscribers := getLocalSubscribers Sample.calm;
     deletionCompletes := deletionCompletes Sample.calm |}.

(** As [Sample.calm], with two local subscribers for every name. *)
Definition followed : Env :=
  {| canPerformAction := canPerformAction Sample.calm;
     requestOutcome := requestOutcome Sample.calm;
     cacheSet := cacheSet Sample.calm;
     storageSet := storageSet Sample.calm;
     storageAnswersFirst := storageAnswersFirst Sample.calm;
     cacheAnswersInSet := cacheAnswersInSet Sample.calm;
     requestAnswersInCall := requestAnswersInCall Sample.calm;
     parseData := parseData Sample.calm;
     hasVersion := hasVersion Sample.calm;
     getLocalSubscribers := λ _, [Sample.alice; bob];
     deletionCompletes := deletionCompletes Sample.calm |}.

(** As [Sample.calm], with record requests answered inside the call. *)
Definition prompt : Env :=
  {| canPerformAction := canPerformAction Sample.calm;
     requestOutcome := requestOutcome Sample.calm;
     cacheSet := cacheSet Sample.calm;
     storageSet := storageSet Sample.calm;
     storageAnswersFirst := storageAnswersFirst Sample.calm;
     cacheAnswersInSet := cacheAnswersInSet Sample.calm;
     requestAnswersInCall := true;
     parseData := parseData Sample.calm;
     hasVersion := hasVersion Sample.calm;
     getLocalSubscribers := getLocalSubscribers Sample.calm;
     deletionCompletes := deletionCompletes Sample.calm |}.

(** As [Sample.calm], with a cache that calls back inside [set]. *)
Definition promptCache : Env :=
  {| canPerformAction := canPerformAction Sample.calm;
     requestOutcome := requestOutcome Sample.calm;
     cacheSet := cacheSet Sample.calm;
     storageSet := storageSet Sample.calm;
     storageAnswersFirst := storageAnswersFirst Sample.calm;
     cacheAnswersInSet := true;
     requestAnswersInCall := requestAnswersInCall Sample.calm;
     parseData := parseData Sample.calm;
     hasVersion := hasVersion Sample.calm;
     getLocalSubscribers := getLocalSubscribers Sample.calm;
     deletionCompletes := deletionCompletes Sample.calm |}.

(** The handler after one local UPDATE of "r": "r" has transition 0. *)
Definition busy : RecordHandler :=
  after (handle Sample.calm Sample.alice (Sample.request RA.UPDATE "r")
           (newRecordHandler Sample.plainConfig)).

End Cases.

(** * Properties *)

(** ** Reasoning about methods *)

Lemma trace_andThen {A B} (m : Method A) (k : A → Method B) h :
  trace (andThen m k h) = trace (m h) ++ trace (k (result (m h)) (after (m h))).
Proof. reflexivity. Qed.

Lemma after_andThen {A B} (m : Method A) (k : A → Method B) h :
  after (andThen m k h) = after (k (result (m h)) (after (m h))).
Proof. reflexivity. Qed.


(** Unfolds the plumbing of [Method] and nothing else. *)
Ltac run_method :=
  cbv beta iota zeta delta
    [andThen this pure call modify skip sendMessage result after trace fst snd].

(** [run_method] in a hypothesis. *)
Ltac run_method_in H :=
  cbv beta iota zeta delta
    [andThen this pure call modify skip sendMessage result after trace fst snd]
    in H.

(** ** Record requests *)

(** A caller that does nothing between the request and its answer sees the
    callback run right after the request, whenever the load answers. *)
Lemma recordRequest_run env recordName socketWrapper onComplete onError h :
  andThen (recordRequest env recordName socketWrapper onComplete onError)
    (λ later, later) h
  = let continue :=
      match requestOutcome env recordName socketWrapper with
      | Loaded record => onComplete record recordName socketWrapper h
      | LoadFailed event errorMessage =>
          onError event errorMessage recordName socketWrapper h
      end in
    (result continue, after continue,
     RecordRequest recordName socketWrapper :: trace continue).
Proof.
  unfold recordRequest. run_method.
  destruct (requestAnswersInCall env);
    destruct (requestOutcome env recordName socketWrapper) as [record|event text];
    [destruct (onComplete record recordName socketWrapper h) as [[[] h'] tr]
    |destruct (onError event text recordName socketWrapper h) as [[[] h'] tr]
    |destruct (onComplete record recordName socketWrapper h) as [[[] h'] tr]
    |destruct (onError event text recordName socketWrapper h) as [[[] h'] tr]];
    cbn; by rewrite ?app_nil_r.
Qed.

(** A caller that goes on after the request sees the callback before or
    after its own next steps. *)
Lemma recordRequest_then env recordName socketWrapper onComplete onError
    (next : Method unit) h :
  let answer :=
    match requestOutcome env recordName socketWrapper with
    | Loaded record => onComplete record recordName socketWrapper
    | LoadFailed event errorMessage =>
        onError event errorMessage recordName socketWrapper
    end in
  let first := if requestAnswersInCall env then answer else next in
  let second := if requestAnswersInCall env then next else answer in
  andThen (recordRequest env recordName socketWrapper onComplete onError)
    (λ later, next ;;; later) h
  = (tt, after (second (after (first h))),
     RecordRequest recordName socketWrapper
       :: trace (first h) ++ trace (second (after (first h)))).
Proof.
  intros answer first second. subst first second.
  unfold recordRequest. fold answer. run_method.
  destruct (requestAnswersInCall env).
  - destruct (answer h) as [[[] h1] t1]. cbn.
    destruct (next h1) as [[[] h2] t2]. cbn. by rewrite !app_nil_r.
  - destruct (next h) as [[[] h1] t1]. cbn.
    by destruct (answer h1) as [[[] h2] t2].
Qed.

(** ** Plain objects *)

Lemma getProperty_own {A} (table : gmap string A) key value :
  table !! key = Some value → getProperty table key = Own value.
Proof. intros Hentry. unfold getProperty. by rewrite Hentry. Qed.

Lemma getProperty_undefined {A} (table : gmap string A) key :
  table !! key = None → objectPrototype key = None →
  getProperty table key = Undefined.
Proof. intros Hentry Hproto. unfold getProperty. by rewrite Hentry, Hproto. Qed.

Lemma getProperty_inherited {A} (table : gmap string A) key length :
  table !! key = None → objectPrototype key = Some length →
  getProperty table key = Inherited length.
Proof. intros Hentry Hproto. unfold getProperty. by rewrite Hentry, Hproto. Qed.

Lemma getProperty_Own_inv {A} (table : gmap string A) key value :
  getProperty table key = Own value → table !! key = Some value.
Proof.
  unfold getProperty. destruct (table !! key) as [own|].
  - by intros [= ->].
  - by destruct (objectPrototype key).
Qed.

Lemma getProperty_Inherited_inv {A} (table : gmap string A) key length :
  getProperty table key = Inherited length →
  table !! key = None ∧ objectPrototype key = Some length.
Proof.
  unfold getProperty. destruct (table !! key) as [own|]; [done|].
  destruct (objectPrototype key); [|done]. by intros [= ->].
Qed.

Lemma getProperty_Undefined_inv {A} (table : gmap string A) key :
  getProperty table key = Undefined →
  table !! key = None ∧ objectPrototype key = None.
Proof.
  unfold getProperty. destruct (table !! key) as [own|]; [done|].
  by destruct (objectPrototype key).
Qed.

(** ** The stability gate, one call at a time *)

Lemma runWhenRecordStable_idle h recordName callback :
  recordRequestsInProgress h !! recordName = Some []
  ∨ (recordRequestsInProgress h !! recordName = None
     ∧ inheritedQueue recordName = false) →
  runWhenRecordStable recordName callback h
    = (tt, setRequests <[recordName := []]> h,
       [InvokeCallback callback recordName]).
Proof.
  unfold runWhenRecordStable, getProperty, inheritedQueue. run_method.
  intros [->|[-> Hsafe]]; [done|].
  by destruct (objectPrototype recordName) as [[[|k]|]|].
Qed.

Lemma runWhenRecordStable_busy h recordName callback c queue :
  recordRequestsInProgress h !! recordName = Some (c :: queue) →
  runWhenRecordStable recordName callback h
    = (tt, setRequests <[recordName := (c :: queue) ++ [callback]]> h, []).
Proof.
  intros Hq. unfold runWhenRecordStable. run_method.
  by rewrite (getProperty_own _ _ _ Hq).
Qed.

Lemma runWhenRecordStable_throws h recordName callback :
  recordRequestsInProgress h !! recordName = None →
  inheritedQueue recordName = true →
  runWhenRecordStable recordName callback h = (tt, h, [ThrowTypeError "push"]).
Proof.
  unfold runWhenRecordStable, getProperty, inheritedQueue. run_method.
  intros -> Hleak.
  by destruct (objectPrototype recordName) as [[[|k]|]|].
Qed.

Lemma removeRecordRequest_absent h recordName :
  recordRequestsInProgress h !! recordName = None →
  objectPrototype recordName = None →
  removeRecordRequest recordName h = (tt, h, []).
Proof.
  intros Hq Hproto. unfold removeRecordRequest. run_method.
  by rewrite (getProperty_undefined _ _ Hq Hproto).
Qed.

Lemma removeRecordRequest_empty h recordName :
  recordRequestsInProgress h !! recordName = Some []
  ∨ (recordRequestsInProgress h !! recordName = None
     ∧ objectPrototype recordName = Some (Some 0)) →
  removeRecordRequest recordName h
    = (tt, setRequests (delete recordName) h, []).
Proof.
  unfold removeRecordRequest, getProperty. run_method.
  by intros [->|[-> ->]].
Qed.

Lemma removeRecordRequest_head h recordName c queue :
  recordRequestsInProgress h !! recordName = Some (c :: queue) →
  removeRecordRequest recordName h
    = (tt, setRequests <[recordName := queue]> h,
       [InvokeCallback c recordName]).
Proof.
  intros Hq. unfold removeRecordRequest. run_method.
  by rewrite (getProperty_own _ _ _ Hq).
Qed.

Lemma removeRecordRequest_throws h recordName :
  recordRequestsInProgress h !! recordName = None →
  inheritedQueue recordName = true →
  removeRecordRequest recordName h = (tt, h, [ThrowTypeError "splice"]).
Proof.
  unfold removeRecordRequest, getProperty, inheritedQueue. run_method.
  intros -> Hleak.
  by destruct (objectPrototype recordName) as [[[|k]|]|].
Qed.

(** With no callback waiting, and on a name that is read as it is stored,
    [removeRecordRequest] invokes nothing and leaves nothing waiting. *)
Lemma removeRecordRequest_idle h recordName :
  pending h recordName = [] → inheritedQueue recordName = false →
  trace (removeRecordRequest recordName h) = []
  ∧ pending (after (removeRecordRequest recordName h)) recordName = [].
Proof.
  unfold pending, removeRecordRequest, getProperty, inheritedQueue. run_method.
  destruct (recordRequestsInProgress h !! recordName) as [[|c q]|] eqn:Hq;
    [|done|]; intros _ Hsafe.
  - cbn. by rewrite lookup_delete_eq.
  - destruct (objectPrototype recordName) as [[[|k]|]|]; try done; cbn.
    + by rewrite lookup_delete_eq.
    + by rewrite Hq.
Qed.



(** C5, as the code has it.  On a name with a queue of its own, and on a
    name with none that [Object.prototype] does not know either, the two
    methods do what is claimed: [runWhenRecordStable] installs an empty
    queue and invokes the callback at once when the queue is absent or
    empty, and appends the callback without invoking it otherwise;
    [removeRecordRequest] changes nothing when the queue is absent, deletes
    the entry when the queue is empty, and otherwise takes the head out,
    leaves the rest and invokes that head, and only it.  On a name with no
    queue of its own that every object inherits with a [length] other than
    0, such as "constructor", both methods take the inherited value for a
    queue that is not empty and end in a TypeError: the callback is neither
    invoked nor queued, and the table is as it was. *)
Theorem stability_gate_operations (h : RecordHandler) (recordName : string)
    (callback : Callback) :
  let queue := recordRequestsInProgress h !! recordName in
  (queue = Some [] ∨ (queue = None ∧ inheritedQueue recordName = false) →
   runWhenRecordStable recordName callback h
     = (tt, setRequests <[recordName := []]> h,
        [InvokeCallback callback recordName]))
  ∧ (∀ waiting,
       queue = Some waiting → waiting ≠ [] →
       runWhenRecordStable recordName callback h
         = (tt, setRequests <[recordName := waiting ++ [callback]]> h, []))
  ∧ (queue = None → objectPrototype recordName = None →
     removeRecordRequest recordName h = (tt, h, []))
  ∧ (queue = Some [] →
     removeRecordRequest recordName h
       = (tt, setRequests (delete recordName) h, []))
  ∧ (∀ first rest,
       queue = Some (first :: rest) →
       removeRecordRequest recordName h
         = (tt, setRequests <[recordName := rest]> h,
            [InvokeCallback first recordName]))
  ∧ (queue = None → inheritedQueue recordName = true →
     runWhenRecordStable recordName callback h
       = (tt, h, [ThrowTypeError "push"])
     ∧ removeRecordRequest recordName h = (tt, h, [ThrowTypeError "splice"])).
Proof.
  intros queue. subst queue. split; [|split; [|split; [|split; [|split]]]].
  - apply runWhenRecordStable_idle.
  - intros [|c waiting] Hq Hne; [done|]. by apply runWhenRecordStable_busy.
  - apply removeRecordRequest_absent.
  - intros Hq. apply removeRecordRequest_empty. by left.
  - intros first rest. apply removeRecordRequest_head.
  - intros Hq Hleak. split.
    + by apply runWhenRecordStable_throws.
    + by apply removeRecordRequest_throws.
Qed.

Lemma stability_gate_operations_witness :
  let idle := newRecordHandler
                {| storageHotPathPrefixes := []; storageExclusionPrefixes := [] |} in
  let busy := setRequests <["r" := [4; 5]]> idle in
  let drained := setRequests <["r" := []]> idle in
  runWhenRecordStable "r" 7 idle
    = (tt, setRequests <["r" := []]> idle, [InvokeCallback 7 "r"])
  ∧ runWhenRecordStable "r" 7 drained
    = (tt, setRequests <["r" := []]> drained, [InvokeCallback 7 "r"])
  ∧ runWhenRecordStable "r" 7 busy
    = (tt, setRequests <["r" := [4; 5] ++ [7]]> busy, [])
  ∧ removeRecordRequest "r" idle = (tt, idle, [])
  ∧ removeRecordRequest "r" drained
    = (tt, setRequests (delete "r") drained, [])
  ∧ removeRecordRequest "r" busy
    = (tt, setRequests <["r" := [5]]> busy, [InvokeCallback 4 "r"])
  ∧ runWhenRecordStable "constructor" 7 idle
    = (tt, idle, [ThrowTypeError "push"])
  ∧ removeRecordRequest "constructor" idle
    = (tt, idle, [ThrowTypeError "splice"]).
Proof.
  intros idle busy drained.
  split; [|split; [|split; [|split; [|split; [|split]]]]].
  - apply (proj1 (stability_gate_operations idle "r" 7)). right.
    split; reflexivity.
  - apply (proj1 (stability_gate_operations drained "r" 7)). left. reflexivity.
  - apply (proj1 (proj2 (stability_gate_operations busy "r" 7))).
    + reflexivity.
    + discriminate.
  - apply (proj1 (proj2 (proj2 (stability_gate_operations idle "r" 7))));
      reflexivity.
  - apply (proj1 (proj2 (proj2 (proj2 (stability_gate_operations drained "r" 7))))).
    reflexivity.
  - apply (proj1 (proj2 (proj2 (proj2 (proj2
             (stability_gate_operations busy "r" 7)))))).
    reflexivity.
  - apply (proj2 (proj2 (proj2 (proj2 (proj2
             (stability_gate_operations idle "constructor" 7))))));
      reflexivity.
Defined.

(** ** The stability gate over a run of calls *)



Lemma invokedCallbacks_app tr1 tr2 :
  invokedCallbacks (tr1 ++ tr2) = invokedCallbacks tr1 ++ invokedCallbacks tr2.
Proof. apply omap_app. Qed.

Lemma registered_cons c cs : registered (c :: cs) = registered [c] ++ registered cs.
Proof. by destruct c. Qed.







(** ** Quiet methods and table changes *)

Lemma tableEvents_app tr1 tr2 :
  tableEvents (tr1 ++ tr2) = tableEvents tr1 ++ tableEvents tr2.
Proof. apply List.filter_app. Qed.

Lemma quiet_pure {A} (a : A) : quiet (pure a).
Proof. by intros h. Qed.

Lemma quiet_this : quiet this.
Proof. by intros h. Qed.

Lemma quiet_call e : isTableEvent e = false → quiet (call e).
Proof.
  intros He h. cbn [call after trace fst snd]. unfold tableEvents. simpl.
  by rewrite He.
Qed.

Lemma quiet_setRequests f : quiet (modify (setRequests f)).
Proof. by intros h. Qed.

Lemma quiet_andThen {A B} (m : Method A) (k : A → Method B) :
  quiet m → (∀ a, quiet (k a)) → quiet (andThen m k).
Proof.
  intros Hm Hk h. rewrite trace_andThen, after_andThen, tableEvents_app.
  destruct (Hm h) as (Ht & Hn & He).
  destruct (Hk (result (m h)) (after (m h))) as (Ht' & Hn' & He').
  by rewrite Ht', Hn', He', Ht, Hn, He.
Qed.

Lemma alters_quiet {A} (m : Method A) : quiet m → alters m.
Proof. intros Hm h. destruct (Hm h) as (? & ? & ?). by apply table_unchanged. Qed.

Lemma alters_after_quiet {A B} (m : Method A) (k : A → Method B) :
  quiet m → (∀ a, alters (k a)) → alters (andThen m k).
Proof.
  intros Hm Hk h. rewrite trace_andThen, after_andThen.
  destruct (Hm h) as (Ht & Hn & He).
  destruct (Hk (result (m h)) (after (m h)))
    as [Ht' Hn' He'|n Hno Ht' Hn' He'|n ref Hin Ht' Hn' He'];
    rewrite ?Ht, ?Hn in *.
  - apply table_unchanged; by rewrite ?tableEvents_app, ?He, ?He'.
  - apply (table_created _ _ _ n); by rewrite ?tableEvents_app, ?He, ?He'.
  - apply (table_destroyed _ _ _ n ref); by rewrite ?tableEvents_app, ?He, ?He'.
Qed.

Lemma alters_before_quiet {A B} (m : Method A) (k : A → Method B) :
  alters m → (∀ a, quiet (k a)) → alters (andThen m k).
Proof.
  intros Hm Hk h. rewrite trace_andThen, after_andThen.
  destruct (Hk (result (m h)) (after (m h))) as (Ht' & Hn' & He').
  destruct (Hm h)
    as [Ht Hn He|n Hno Ht Hn He|n ref Hin Ht Hn He].
  - apply table_unchanged;
      by rewrite ?tableEvents_app, ?He, ?He', ?Ht', ?Hn', ?app_nil_r.
  - apply (table_created _ _ _ n);
      by rewrite ?tableEvents_app, ?He, ?He', ?Ht', ?Hn', ?app_nil_r.
  - apply (table_destroyed _ _ _ n ref);
      by rewrite ?tableEvents_app, ?He, ?He', ?Ht', ?Hn', ?app_nil_r.
Qed.

Create HintDb quiet discriminated.

#[local] Hint Resolve quiet_pure quiet_this quiet_setRequests : quiet.
#[local] Hint Extern 1 (quiet (call _)) => apply quiet_call; reflexivity : quiet.
#[local] Hint Extern 1 (quiet skip) => apply quiet_pure : quiet.
#[local] Hint Extern 1 (quiet (sendMessage _ _)) =>
  apply quiet_call; reflexivity : quiet.
#[local] Hint Extern 2 (quiet (andThen _ _)) =>
  apply quiet_andThen; [|intros ?] : quiet.
#[local] Hint Extern 3 (quiet (match ?x with _ => _ end)) => destruct x : quiet.

(** Closes [quiet m] for a method put together from quiet pieces. *)
Ltac quiet := intros; eauto 40 with quiet.

Lemma quiet_sendRecord recordName record socketWrapper :
  quiet (sendRecord recordName record socketWrapper).
Proof. unfold sendRecord. quiet. Qed.

Lemma quiet_forEach {A} (l : list A) body :
  (∀ x, quiet (body x)) → quiet (forEach l body).
Proof. intros Hbody. induction l as [|x l IH]; cbn [forEach]; quiet. Qed.

Lemma quiet_onPermissionResponse socketWrapper message originalAction k
    error ok :
  quiet k →
  quiet (onPermissionResponse socketWrapper message originalAction k error ok).
Proof. intros Hk. unfold onPermissionResponse. quiet. Qed.

Lemma alters_onPermissionResponse socketWrapper message originalAction k
    error ok :
  alters k →
  alters (onPermissionResponse socketWrapper message originalAction k error ok).
Proof.
  intros Hk. unfold onPermissionResponse.
  destruct (bool_decide (is_Some error) || negb ok); [|done].
  apply alters_quiet. quiet.
Qed.

#[local] Hint Resolve quiet_sendRecord quiet_forEach quiet_onPermissionResponse
  : quiet.

Section TableChanges.
Variable env : Env.

Lemma quiet_permissionAction actionToPermission message originalAction
    socketWrapper k :
  quiet k →
  quiet (permissionAction env actionToPermission message originalAction
           socketWrapper k).
Proof. intros Hk. unfold permissionAction. quiet. Qed.

Lemma alters_permissionAction actionToPermission message originalAction
    socketWrapper k :
  alters k →
  alters (permissionAction env actionToPermission message originalAction
            socketWrapper k).
Proof.
  intros Hk. unfold permissionAction. apply alters_after_quiet; [quiet|].
  intros _. by apply alters_onPermissionResponse.
Qed.

Lemma quiet_recordRequest recordName socketWrapper onComplete onError :
  (∀ record n s, quiet (onComplete record n s)) →
  (∀ event text n s, quiet (onError event text n s)) →
  quiet (andThen (recordRequest env recordName socketWrapper onComplete onError)
           (λ later, later)).
Proof.
  intros Hc He h. rewrite recordRequest_run. cbv zeta.
  cbn [after trace result fst snd].
  destruct (requestOutcome env recordName socketWrapper) as [record|event text].
  - apply (Hc record recordName socketWrapper h).
  - apply (He event text recordName socketWrapper h).
Qed.

Lemma quiet_recordRequest_then recordName socketWrapper onComplete onError
    (next : Method unit) :
  (∀ record n s, quiet (onComplete record n s)) →
  (∀ event text n s, quiet (onError event text n s)) →
  quiet next →
  quiet (andThen (recordRequest env recordName socketWrapper onComplete onError)
           (λ later, next ;;; later)).
Proof.
  intros Hc He Hnext h. rewrite recordRequest_then. cbv zeta.
  cbn [after trace result fst snd].
  set (answer := match requestOutcome env recordName socketWrapper with
                 | Loaded record => onComplete record recordName socketWrapper
                 | LoadFailed event errorMessage =>
                     onError event errorMessage recordName socketWrapper
                 end).
  assert (quiet answer) as Hanswer.
  { subst answer. destruct (requestOutcome env recordName socketWrapper); quiet. }
  change (RecordRequest recordName socketWrapper :: ?l)
    with ([RecordRequest recordName socketWrapper] ++ l).
  rewrite !tableEvents_app.
  destruct (requestAnswersInCall env).
  - destruct (Hanswer h) as (Ht & Hn & ->).
    destruct (Hnext (after (answer h))) as (Ht' & Hn' & ->).
    by rewrite Ht', Hn', Ht, Hn.
  - destruct (Hnext h) as (Ht & Hn & ->).
    destruct (Hanswer (after (next h))) as (Ht' & Hn' & ->).
    by rewrite Ht', Hn', Ht, Hn.
Qed.

Lemma quiet_broadcastUpdate recordName message noDelay originalSender :
  quiet (broadcastUpdate recordName message noDelay originalSender).
Proof. unfold broadcastUpdate. quiet. Qed.

#[local] Hint Resolve quiet_permissionAction quiet_recordRequest
  quiet_broadcastUpdate : quiet.

Lemma quiet_snapshot socketWrapper message :
  quiet (snapshot env socketWrapper message).
Proof. unfold snapshot. apply quiet_recordRequest; quiet. Qed.

Lemma quiet_head socketWrapper message : quiet (head env socketWrapper message).
Proof. unfold head, headCall. apply quiet_recordRequest; quiet. Qed.

Lemma quiet_subscribeAndHead socketWrapper message :
  quiet (subscribeAndHead env socketWrapper message).
Proof.
  unfold subscribeAndHead, headCall. apply quiet_recordRequest_then; quiet.
Qed.

Lemma quiet_readAndSubscribe message record socketWrapper :
  quiet (readAndSubscribe env message record socketWrapper).
Proof. unfold readAndSubscribe. quiet. Qed.

#[local] Hint Resolve quiet_readAndSubscribe : quiet.

Lemma quiet_create message socketWrapper callback :
  (∀ cb n s, callback = Some cb → quiet (cb n s)) →
  quiet (create env message socketWrapper callback).
Proof.
  intros Hcb. unfold create.
  destruct callback as [cb|]; [pose proof (λ n s, Hcb cb n s eq_refl)|]; quiet.
Qed.

Lemma quiet_createOrRead socketWrapper message :
  quiet (createOrRead env socketWrapper message).
Proof.
  unfold createOrRead. apply quiet_recordRequest; [|quiet].
  intros [r|] n s; [quiet|]. apply quiet_permissionAction.
  by apply quiet_create.
Qed.

Lemma quiet_handleForceWriteAcknowledgement socketWrapper message c s error :
  quiet (handleForceWriteAcknowledgement socketWrapper message c s error).
Proof. unfold handleForceWriteAcknowledgement. quiet. Qed.

#[local] Hint Resolve quiet_handleForceWriteAcknowledgement : quiet.

Lemma quiet_forceWrite recordName message socketWrapper :
  quiet (forceWrite env recordName message socketWrapper).
Proof.
  unfold forceWrite, forceWriteStorageCallback, forceWriteCacheCallback. quiet.
Qed.

Lemma quiet_hotPathLoop prefixes recordName isPatch message originalAction
    socketWrapper :
  quiet (hotPathLoop env prefixes recordName isPatch message originalAction
           socketWrapper).
Proof.
  pose proof quiet_forceWrite.
  induction prefixes as [|pattern rest IH]; cbn [hotPathLoop]; quiet.
Qed.
End TableChanges.

#[local] Hint Resolve quiet_permissionAction quiet_recordRequest
  quiet_broadcastUpdate quiet_readAndSubscribe
  quiet_handleForceWriteAcknowledgement quiet_snapshot quiet_head
  quiet_subscribeAndHead quiet_createOrRead quiet_forceWrite
  quiet_hotPathLoop : quiet.

Lemma update_local env socketWrapper message upsert h :
  isRemote socketWrapper = false →
  let recordName := name message in
  let message' :=
    withAction (if bool_decide (is_Some (path message))
                then RA.PATCH else RA.UPDATE) message in
  update env socketWrapper message upsert h
  = match getProperty (transitions h) recordName with
    | Own transition =>
        (tt, h,
         [if hasVersion env transition (version message)
          then TransitionSendVersionExists transition message'
                 (version message) socketWrapper
          else TransitionAdd transition socketWrapper message' (Some upsert)])
    | Inherited _ => (tt, h, [ThrowTypeError "hasVersion"])
    | Undefined =>
        (tt,
         setTransitions <[recordName := nextTransition h]> (bumpTransition h),
         [NewRecordTransition (nextTransition h) recordName;
          TransitionAdd (nextTransition h) socketWrapper message' (Some upsert)])
    end.
Proof.
  intros Hlocal. unfold update. rewrite Hlocal. run_method. cbn [name withAction].
  destruct (getProperty (transitions h) (name message)) as [t|len|]; [|done..].
  by destruct (hasVersion env t (version message)).
Qed.

Lemma alters_update env socketWrapper message upsert :
  alters (update env socketWrapper message upsert).
Proof.
  intros h. destruct (isRemote socketWrapper) eqn:Hremote.
  - apply alters_quiet. unfold update. rewrite Hremote. quiet.
  - rewrite (update_local _ _ _ _ _ Hremote). cbv zeta.
    destruct (getProperty (transitions h) (name message)) as [t|len|] eqn:Hentry.
    + apply table_unchanged; try done.
      by destruct (hasVersion env t (version message)).
    + by apply table_unchanged.
    + apply getProperty_Undefined_inv in Hentry as [Hentry _].
      by apply (table_created _ _ _ (name message)).
Qed.

Lemma alters_createAndUpdate env socketWrapper message :
  alters (createAndUpdate env socketWrapper message).
Proof.
  unfold createAndUpdate.
  apply alters_after_quiet; [quiet|]. intros h0.
  apply alters_after_quiet; [quiet|]. intros [|]; [apply alters_quiet; quiet|].
  apply alters_after_quiet; [quiet|]. intros h1.
  destruct (getProperty (transitions h1) (name message)) as [t|len|].
  - apply alters_quiet. quiet.
  - apply alters_quiet. quiet.
  - do 2 apply alters_permissionAction. apply alters_update.
Qed.

Lemma quiet_onDeleted env recordName message originalSender :
  quiet (onDeleted env recordName message originalSender).
Proof. unfold onDeleted. quiet. Qed.

Lemma destroyTransition_run recordName h :
  destroyTransition recordName h
  = match getProperty (transitions h) recordName with
    | Own transition =>
        (Returned, setTransitions (delete recordName) h,
         [TransitionDestroy transition])
    | Inherited _ => (Threw, h, [ThrowTypeError "destroy"])
    | Undefined => (Returned, h, [])
    end.
Proof.
  unfold destroyTransition. run_method.
  by destruct (getProperty (transitions h) recordName).
Qed.

Lemma alters_destroyTransition recordName : alters (destroyTransition recordName).
Proof.
  intros h. rewrite destroyTransition_run.
  destruct (getProperty (transitions h) recordName) as [t|len|] eqn:Hentry.
  - apply getProperty_Own_inv in Hentry.
    by apply (table_destroyed _ _ _ recordName t).
  - by apply table_unchanged.
  - by apply table_unchanged.
Qed.

#[local] Hint Resolve quiet_onDeleted : quiet.

Lemma alters_delete env socketWrapper message :
  alters (delete_ env socketWrapper message).
Proof.
  unfold delete_. apply alters_before_quiet; [apply alters_destroyTransition|].
  quiet.
Qed.

Lemma alters_remoteDelete env socketWrapper message :
  alters (remoteDelete env socketWrapper message).
Proof.
  unfold remoteDelete.
  apply alters_before_quiet; [apply alters_destroyTransition|]. quiet.
Qed.

Lemma alters_handle env socketWrapper message :
  alters (handle env socketWrapper message).
Proof.
  unfold handle.
  destruct (if isWriteAck message then _ else _) as [[]|];
    first [ apply alters_createAndUpdate | apply alters_update
          | apply alters_delete | apply alters_remoteDelete
          | apply alters_quiet; quiet ].
Qed.

Lemma quiet_gateCall recordName c : quiet (gateCall recordName c).
Proof.
  destruct c; cbn [gateCall]; unfold runWhenRecordStable, removeRecordRequest;
    quiet.
Qed.

Lemma classic_call c :
  (∃ recordName, c = TransitionComplete recordName)
  ∨ (∀ recordName, c ≠ TransitionComplete recordName).
Proof. destruct c; eauto; right; discriminate. Qed.

Lemma alters_invoke c :
  (∀ recordName, c ≠ TransitionComplete recordName) → alters (invoke c).
Proof.
  intros Hc. destruct c; cbn [invoke].
  - apply alters_handle.
  - apply alters_quiet. quiet.
  - apply alters_quiet. quiet.
  - by destruct (Hc recordName).
  - apply alters_quiet, quiet_gateCall.
Qed.

(** ** The table of transitions over a run *)

Lemma numbered_fresh h recordName :
  numbered h → transitions h !! recordName ≠ Some (nextTransition h).
Proof. intros Hnum Hentry. apply Hnum in Hentry. lia. Qed.

Lemma TableChange_numbered h h' tr :
  TableChange h h' tr → numbered h → numbered h'.
Proof.
  intros [Ht Hn _|n0 Hno Ht Hn _|n0 ref0 Hin Ht Hn _] Hnum n ref;
    rewrite Ht, Hn.
  - apply Hnum.
  - destruct (decide (n0 = n)) as [->|Hne].
    + rewrite lookup_insert_eq. intros [= <-]. lia.
    + rewrite lookup_insert_ne by done. intros Hentry%Hnum. lia.
  - destruct (decide (n0 = n)) as [->|Hne].
    + by rewrite lookup_delete_eq.
    + rewrite lookup_delete_ne by done. apply Hnum.
Qed.

Lemma transitionComplete_numbered recordName h :
  numbered h → numbered (after (transitionComplete recordName h)).
Proof.
  intros Hnum n ref. cbn. destruct (decide (recordName = n)) as [->|Hne].
  - by rewrite lookup_delete_eq.
  - rewrite lookup_delete_ne by done. apply Hnum.
Qed.

Lemma reachable_numbered cfg h : reachable cfg h → numbered h.
Proof.
  induction 1 as [|h c _ IH].
  - intros n ref. cbn. by rewrite lookup_empty.
  - destruct (classic_call c) as [[n ->]|Hc].
    + by apply transitionComplete_numbered.
    + by apply (TableChange_numbered h _ _ (alters_invoke c Hc h)).
Qed.

Lemma elem_of_tableEvents e tr :
  e ∈ tr → isTableEvent e = true → e ∈ tableEvents tr.
Proof.
  intros Hin He. apply list_elem_of_In, List.filter_In.
  split; [by apply list_elem_of_In|done].
Qed.

Lemma tableEvents_elem_of e tr : e ∈ tableEvents tr → e ∈ tr.
Proof.
  intros Hin%list_elem_of_In%List.filter_In. apply list_elem_of_In. tauto.
Qed.

Lemma delete_run env socketWrapper message h :
  transitions (after (delete_ env socketWrapper message h))
    = delete (name message) (transitions h)
  ∧ ∀ ref, transitions h !! name message = Some ref →
      ∃ rest, trace (delete_ env socketWrapper message h)
                = TransitionDestroy ref
                    :: NewRecordDeletion socketWrapper message :: rest
              ∧ tableEvents rest = [].
Proof.
  unfold delete_. rewrite after_andThen, trace_andThen.
  set (k := andThen (call (NewRecordDeletion socketWrapper message)) _).
  assert (quiet k) as Hk by (subst k; quiet).
  rewrite destroyTransition_run.
  destruct (getProperty (transitions h) (name message)) as [t|len|] eqn:Hp;
    cbn [result after trace fst snd].
  - apply getProperty_Own_inv in Hp.
    destruct (Hk (setTransitions (delete (name message)) h)) as (Ht & _ & He).
    split; [by rewrite Ht|]. intros ref Hentry.
    rewrite Hp in Hentry. injection Hentry as ->.
    subst k. rewrite trace_andThen in *. cbn [call trace snd app] in *.
    eexists. split; [reflexivity|]. exact He.
  - apply getProperty_Inherited_inv in Hp as [Hp _]. split.
    + cbn. by rewrite delete_id.
    + intros ref Hentry. congruence.
  - apply getProperty_Undefined_inv in Hp as [Hp _].
    destruct (Hk h) as (Ht & _ & _). split.
    + rewrite Ht. by rewrite delete_id.
    + intros ref Hentry. congruence.
Qed.

Lemma remoteDelete_run env socketWrapper message h :
  transitions (after (remoteDelete env socketWrapper message h))
    = delete (name message) (transitions h)
  ∧ ∀ ref, transitions h !! name message = Some ref →
      ∃ rest, trace (remoteDelete env socketWrapper message h)
                = TransitionDestroy ref
                    :: SendToSubscribers (name message) message true
                         socketWrapper :: rest
              ∧ tableEvents rest = [].
Proof.
  unfold remoteDelete. rewrite after_andThen, trace_andThen.
  set (k := onDeleted env (name message) message socketWrapper).
  assert (quiet k) as Hk by (subst k; quiet).
  rewrite destroyTransition_run.
  destruct (getProperty (transitions h) (name message)) as [t|len|] eqn:Hp;
    cbn [result after trace fst snd].
  - apply getProperty_Own_inv in Hp.
    destruct (Hk (setTransitions (delete (name message)) h)) as (Ht & _ & He).
    split; [by rewrite Ht|]. intros ref Hentry.
    rewrite Hp in Hentry. injection Hentry as ->.
    subst k. unfold onDeleted in *. rewrite trace_andThen in *.
    cbn [broadcastUpdate call trace snd app] in *.
    eexists. split; [reflexivity|]. exact He.
  - apply getProperty_Inherited_inv in Hp as [Hp _]. split.
    + cbn. by rewrite delete_id.
    + intros ref Hentry. congruence.
  - apply getProperty_Undefined_inv in Hp as [Hp _].
    destruct (Hk h) as (Ht & _ & _). split.
    + rewrite Ht. by rewrite delete_id.
    + intros ref Hentry. congruence.
Qed.

(** C7. In every state the handler can reach and for every call of one of
    its public methods: a transition is made only for a name that has no
    entry in the table, the object made is new and is the entry of that name
    when the call returns; the entry of a name is never replaced by another
    object, and it leaves the table only through [transitionComplete] for
    that name or together with a [destroy] of the object; after
    [transitionComplete] the name has no entry; and [delete] and
    [remoteDelete] first destroy the object entered for the name, if there
    is one, drop the entry, and only then go on. *)
Theorem one_transition_per_name (cfg : DeepstreamConfig) (h : RecordHandler)
    (c : PublicCall) :
  reachable cfg h →
  let r := invoke c h in
  (∀ ref recordName,
     NewRecordTransition ref recordName ∈ trace r →
     transitions h !! recordName = None
     ∧ transitions (after r) !! recordName = Some ref
     ∧ ∀ other, transitions h !! other ≠ Some ref)
  ∧ (∀ recordName ref,
       transitions h !! recordName = Some ref →
       transitions (after r) !! recordName = Some ref
       ∨ (transitions (after r) !! recordName = None
          ∧ (c = TransitionComplete recordName
             ∨ TransitionDestroy ref ∈ trace r)))
  ∧ (∀ recordName,
       c = TransitionComplete recordName →
       transitions (after r) !! recordName = None)
  ∧ (∀ env socketWrapper message,
       c = Handle env socketWrapper message →
       isWriteAck message = false →
       action message = RA.DELETE ∨ action message = RA.DELETE_SUCCESS →
       transitions (after r) !! name message = None
       ∧ ∀ ref, transitions h !! name message = Some ref →
           ∃ rest, trace r = TransitionDestroy ref :: rest
                   ∧ tableEvents rest = []).
Proof.
  intros Hreach r. pose proof (reachable_numbered _ _ Hreach) as Hnum.
  split; [|split; [|split]].
  - intros ref n Hnew. subst r.
    destruct (classic_call c) as [[n0 ->]|Hc]; [by apply elem_of_nil in Hnew|].
    apply elem_of_tableEvents in Hnew; [|done].
    destruct (alters_invoke c Hc h)
      as [_ _ He|n0 Hno Ht _ He|n0 ref0 _ _ _ He]; rewrite He in Hnew.
    + by apply elem_of_nil in Hnew.
    + apply list_elem_of_singleton in Hnew as [= -> ->].
      rewrite Ht, lookup_insert_eq. split; [done|]. split; [done|].
      intros other. by apply numbered_fresh.
    + by apply list_elem_of_singleton in Hnew.
  - intros n ref Hentry. subst r.
    destruct (classic_call c) as [[n0 ->]|Hc].
    + cbn. destruct (decide (n0 = n)) as [->|Hne].
      * right. rewrite lookup_delete_eq. by split; [|left].
      * left. by rewrite lookup_delete_ne.
    + destruct (alters_invoke c Hc h)
        as [Ht _ _|n0 Hno Ht _ _|n0 ref0 Hin Ht _ He]; rewrite Ht.
      * by left.
      * left. rewrite lookup_insert_ne; [done|]. intros ->. congruence.
      * destruct (decide (n0 = n)) as [->|Hne].
        -- right. rewrite lookup_delete_eq. split; [done|]. right.
           apply tableEvents_elem_of. rewrite He.
           apply list_elem_of_singleton. congruence.
        -- left. by rewrite lookup_delete_ne.
  - intros n ->. subst r. cbn. by rewrite lookup_delete_eq.
  - intros env socketWrapper message -> Hack Hact. subst r.
    cbn [invoke]. unfold handle. rewrite Hack.
    destruct Hact as [-> | ->].
    + destruct (delete_run env socketWrapper message h) as [Ht Hd].
      rewrite Ht, lookup_delete_eq. split; [done|].
      intros ref Hentry. destruct (Hd ref Hentry) as (rest & -> & He).
      eexists. split; [reflexivity|]. done.
    + destruct (remoteDelete_run env socketWrapper message h) as [Ht Hd].
      rewrite Ht, lookup_delete_eq. split; [done|].
      intros ref Hentry. destruct (Hd ref Hentry) as (rest & -> & He).
      eexists. split; [reflexivity|]. done.
Qed.

Lemma one_transition_per_name_witness :
  let h := after (invoke (Handle Sample.calm Sample.alice
                            (Sample.request RA.UPDATE "r"))
                    (newRecordHandler Sample.plainConfig)) in
  let r := invoke (Handle Sample.calm Sample.alice
                     (Sample.request RA.DELETE "r")) h in
  transitions h !! "r" = Some 0
  ∧ transitions (after r) !! "r" = None
  ∧ ∃ rest, trace r = TransitionDestroy 0 :: rest ∧ tableEvents rest = [].
Proof.
  intros h r.
  assert (transitions h !! "r" = Some 0) as Hentry by (vm_compute; reflexivity).
  split; [exact Hentry|].
  destruct (one_transition_per_name Sample.plainConfig h
              (Handle Sample.calm Sample.alice (Sample.request RA.DELETE "r"))
              (reachable_call _ _ _ (reachable_new _)))
    as (_ & _ & _ & Hdelete).
  destruct (Hdelete _ _ _ eq_refl eq_refl (or_introl eq_refl)) as [Hgone Hfirst].
  split; [exact Hgone|]. exact (Hfirst 0 Hentry).
Defined.

(** ** Permissioning *)

(** The reply [onPermissionResponse] builds: the failing action, the
    original action, the name, and the correlation id when it is truthy. *)
Lemma onPermissionResponse_refusal socketWrapper message originalAction k
    error ok h :
  error ≠ None ∨ ok = false →
  onPermissionResponse socketWrapper message originalAction k error ok h
  = (tt, h,
     match error with
     | Some e => [LoggerError (LogRA RA.MESSAGE_PERMISSION_ERROR) (DError e)]
     | None => []
     end
     ++ [SendMessage socketWrapper
           {| topic := TOPIC.RECORD;
              action := match error with
                        | Some _ => RA.MESSAGE_PERMISSION_ERROR
                        | None => RA.MESSAGE_DENIED
                        end;
              name := name message;
              originalAction := Some originalAction;
              version := None; path := None; data := None; parsedData := None;
              isWriteAck := false;
              correlationId := if truthy (correlationId message)
                               then correlationId message else None |}
           false]).
Proof.
  intros Hrefused. unfold onPermissionResponse.
  destruct error as [e|], ok; try (by destruct Hrefused);
    cbn [bool_decide orb negb]; run_method;
    by destruct (truthy (correlationId message)).
Qed.

Lemma permissionAction_allowed env actionToPermission message originalAction
    socketWrapper k h :
  canPerformAction env (user socketWrapper)
    (withAction actionToPermission message) (authData socketWrapper)
    socketWrapper = (None, true) →
  permissionAction env actionToPermission message originalAction socketWrapper
    k h
  = (result (k h), after (k h),
     CanPerformAction (user socketWrapper)
       (withAction actionToPermission message) (authData socketWrapper)
       socketWrapper :: trace (k h)).
Proof. intros Hok. unfold permissionAction. run_method. by rewrite Hok. Qed.

(** C8, as the code has it.  The permission handler is asked about a copy of
    the message that differs from it in the action alone, which is the
    action to check.  When it answers with an error, the error is logged and
    the sender is sent MESSAGE_PERMISSION_ERROR; when it answers no without
    an error, the sender is sent MESSAGE_DENIED.  Either reply carries the
    original action and the name, and the correlation id of the message
    when that is a non-empty string; an absent or empty correlation id is
    not carried.  In both cases nothing else happens: the handler state is
    unchanged and the outcome does not depend on the success continuation,
    which runs only on a yes without an error. *)
Theorem permission_refusal (env : Env) (actionToPermission : RA.t)
    (message : Message) (originalAction : RA.t) (socketWrapper : SocketWrapper)
    (k : Method unit) (h : RecordHandler) :
  let copy := withAction actionToPermission message in
  let check := CanPerformAction (user socketWrapper) copy
                 (authData socketWrapper) socketWrapper in
  let answer := canPerformAction env (user socketWrapper) copy
                  (authData socketWrapper) socketWrapper in
  let run := permissionAction env actionToPermission message originalAction
               socketWrapper k h in
  let reply a :=
    {| topic := TOPIC.RECORD; action := a; name := name message;
       originalAction := Some originalAction;
       version := None; path := None; data := None; parsedData := None;
       isWriteAck := false;
       correlationId := match correlationId message with
                        | Some "" | None => None
                        | Some c => Some c
                        end |} in
  (action copy = actionToPermission
   ∧ withAction (action message) copy = message)
  ∧ (answer = (None, false) →
     run = (tt, h, [check; SendMessage socketWrapper (reply RA.MESSAGE_DENIED)
                             false]))
  ∧ (∀ e ok, answer = (Some e, ok) →
     run = (tt, h, [check;
                    LoggerError (LogRA RA.MESSAGE_PERMISSION_ERROR) (DError e);
                    SendMessage socketWrapper
                      (reply RA.MESSAGE_PERMISSION_ERROR) false]))
  ∧ (answer = (None, true) →
     run = (result (k h), after (k h), check :: trace (k h))).
Proof.
  intros copy check answer run reply.
  assert (∀ a, reply a
               = {| topic := TOPIC.RECORD; action := a; name := name message;
                    originalAction := Some originalAction;
                    version := None; path := None; data := None;
                    parsedData := None; isWriteAck := false;
                    correlationId := if truthy (correlationId message)
                                     then correlationId message else None |})
    as Hreply.
  { intros a. subst reply. cbv beta.
    by destruct (correlationId message) as [[|]|]. }
  split; [split; [done|by destruct message]|].
  subst run. unfold permissionAction. run_method. fold copy answer check.
  split; [|split].
  - intros ->. cbn [fst snd].
    rewrite onPermissionResponse_refusal by (by right). by rewrite Hreply.
  - intros e ok ->. cbn [fst snd].
    rewrite onPermissionResponse_refusal by (by left). by rewrite Hreply.
  - by intros ->.
Qed.

Lemma permission_refusal_witness :
  let message :=
    {| topic := TOPIC.RECORD; action := RA.SUBSCRIBECREATEANDREAD; name := "a/1";
       originalAction := None; version := None; path := None; data := None;
       parsedData := None; isWriteAck := false; correlationId := Some "42" |} in
  let check := CanPerformAction "alice" (withAction RA.CREATE message) JNull
                 Sample.alice in
  let h := newRecordHandler Sample.plainConfig in
  let k := call (Subscribe message Sample.alice) in
  permissionAction Sample.denying RA.CREATE message RA.SUBSCRIBECREATEANDREAD
    Sample.alice k h
  = (tt, h,
     [check;
      SendMessage Sample.alice
        {| topic := TOPIC.RECORD; action := RA.MESSAGE_DENIED; name := "a/1";
           originalAction := Some RA.SUBSCRIBECREATEANDREAD;
           version := None; path := None; data := None; parsedData := None;
           isWriteAck := false; correlationId := Some "42" |} false])
  ∧ permissionAction Sample.erring RA.CREATE message RA.SUBSCRIBECREATEANDREAD
      Sample.alice k h
    = (tt, h,
       [check;
        LoggerError (LogRA RA.MESSAGE_PERMISSION_ERROR)
          (DError (MkError "rule crashed"));
        SendMessage Sample.alice
          {| topic := TOPIC.RECORD; action := RA.MESSAGE_PERMISSION_ERROR;
             name := "a/1";
             originalAction := Some RA.SUBSCRIBECREATEANDREAD;
             version := None; path := None; data := None; parsedData := None;
             isWriteAck := false; correlationId := Some "42" |} false])
  ∧ permissionAction Sample.calm RA.CREATE message RA.SUBSCRIBECREATEANDREAD
      Sample.alice k h
    = (tt, h, [check; Subscribe message Sample.alice]).
Proof.
  intros message check h k. split; [|split].
  - apply (proj1 (proj2 (permission_refusal Sample.denying RA.CREATE message
                           RA.SUBSCRIBECREATEANDREAD Sample.alice k h))).
    reflexivity.
  - apply (proj1 (proj2 (proj2 (permission_refusal Sample.erring RA.CREATE
                                  message RA.SUBSCRIBECREATEANDREAD
                                  Sample.alice k h)))
             (MkError "rule crashed") false).
    reflexivity.
  - apply (proj2 (proj2 (proj2 (permission_refusal Sample.calm RA.CREATE
                                  message RA.SUBSCRIBECREATEANDREAD
                                  Sample.alice k h)))).
    reflexivity.
Defined.

(** C8 in the words of the specification fails: a message whose correlation
    id is the empty string is denied with a reply that carries no
    correlation id. *)
Lemma denied_reply_omits_empty_correlationId :
  ¬ (∀ (env : Env) (actionToPermission : RA.t) (message : Message)
       (originalAction : RA.t) (socketWrapper : SocketWrapper)
       (k : Method unit) (h : RecordHandler) (c : string),
       canPerformAction env (user socketWrapper)
         (withAction actionToPermission message) (authData socketWrapper)
         socketWrapper = (None, false) →
       correlationId message = Some c →
       ∃ reply,
         SendMessage socketWrapper reply false
           ∈ trace (permissionAction env actionToPermission message
                      originalAction socketWrapper k h)
         ∧ action reply = RA.MESSAGE_DENIED
         ∧ correlationId reply = Some c).
Proof.
  intros Hclaim.
  destruct (Hclaim Sample.denying RA.CREATE
              {| topic := TOPIC.RECORD; action := RA.SUBSCRIBECREATEANDREAD;
                 name := "a/1"; originalAction := None; version := None;
                 path := None; data := None; parsedData := None;
                 isWriteAck := false; correlationId := Some "" |}
              RA.SUBSCRIBECREATEANDREAD Sample.alice skip
              (newRecordHandler Sample.plainConfig) "" eq_refl eq_refl)
    as (reply & Hsent & _ & Hid).
  vm_compute in Hsent.
  apply elem_of_cons in Hsent as [Hsent|Hsent]; [discriminate Hsent|].
  apply list_elem_of_singleton in Hsent. injection Hsent as ->.
  discriminate Hid.
Qed.

(** ** Reads *)

(** C9. A HEAD request whose record request completes without an error
    sends the requester one HEAD_RESPONSE for the name: with the version of
    the record when one was loaded, with -1 when none was. *)
Theorem head_response (env : Env) (socketWrapper : SocketWrapper)
    (message : Message) (h : RecordHandler) (record : option StorageRecord) :
  requestOutcome env (name message) socketWrapper = Loaded record →
  head env socketWrapper message h
  = (tt, h,
     [RecordRequest (name message) socketWrapper;
      SendMessage socketWrapper
        {| topic := TOPIC.RECORD; action := RA.HEAD_RESPONSE;
           name := name message; originalAction := None;
           version := Some (match record with
                            | Some r => _v r
                            | None => (-1)%Z
                            end);
           path := None; data := None; parsedData := None;
           isWriteAck := false; correlationId := None |} false]).
Proof.
  intros Hloaded. unfold head, headCall. rewrite recordRequest_run, Hloaded.
  reflexivity.
Qed.

Lemma head_response_witness :
  let reply v :=
    {| topic := TOPIC.RECORD; action := RA.HEAD_RESPONSE; name := "a/1";
       originalAction := None; version := Some v; path := None; data := None;
       parsedData := None; isWriteAck := false; correlationId := None |} in
  let h := newRecordHandler Sample.plainConfig in
  handle Sample.stored Sample.alice (Sample.request RA.HEAD "a/1") h
  = (tt, h, [RecordRequest "a/1" Sample.alice;
             SendMessage Sample.alice (reply 3%Z) false])
  ∧ handle Sample.calm Sample.alice (Sample.request RA.HEAD "a/1") h
    = (tt, h, [RecordRequest "a/1" Sample.alice;
               SendMessage Sample.alice (reply (-1)%Z) false]).
Proof.
  intros reply h. split.
  - apply (head_response Sample.stored Sample.alice
             (Sample.request RA.HEAD "a/1") h
             (Some {| _v := 3; _d := JObj [] |})).
    reflexivity.
  - apply (head_response Sample.calm Sample.alice
             (Sample.request RA.HEAD "a/1") h None).
    reflexivity.
Defined.

(** C10. A READ whose record request completes with no record sends the
    requester one RECORD_NOT_FOUND that carries the name of the message and,
    as original action, the action of the message, which is READ when the
    message came through [handle]. *)
Theorem snapshot_not_found (env : Env) (socketWrapper : SocketWrapper)
    (message : Message) (h : RecordHandler) :
  requestOutcome env (name message) socketWrapper = Loaded None →
  let reply :=
    {| topic := TOPIC.RECORD; action := RA.RECORD_NOT_FOUND;
       name := name message; originalAction := Some (action message);
       version := None; path := None; data := None; parsedData := None;
       isWriteAck := false; correlationId := None |} in
  snapshot env socketWrapper message h
    = (tt, h, [RecordRequest (name message) socketWrapper;
               SendMessage socketWrapper reply false])
  ∧ (action message = RA.READ → isWriteAck message = false →
     handle env socketWrapper message h
       = snapshot env socketWrapper message h
     ∧ originalAction reply = Some RA.READ).
Proof.
  intros Hloaded reply. split.
  - unfold snapshot. rewrite recordRequest_run, Hloaded. reflexivity.
  - intros Hread Hack. unfold handle. rewrite Hack, Hread. split; [done|].
    subst reply. cbn. by rewrite Hread.
Qed.

Lemma snapshot_not_found_witness :
  let h := newRecordHandler Sample.plainConfig in
  handle Sample.calm Sample.alice (Sample.request RA.READ "a/1") h
  = (tt, h,
     [RecordRequest "a/1" Sample.alice;
      SendMessage Sample.alice
        {| topic := TOPIC.RECORD; action := RA.RECORD_NOT_FOUND; name := "a/1";
           originalAction := Some RA.READ; version := None; path := None;
           data := None; parsedData := None; isWriteAck := false;
           correlationId := None |} false]).
Proof.
  intros h.
  destruct (snapshot_not_found Sample.calm Sample.alice
              (Sample.request RA.READ "a/1") h eq_refl) as [Hrun Hhandle].
  destruct (Hhandle eq_refl eq_refl) as [-> _]. exact Hrun.
Defined.

(** The error callbacks of [snapshot] and [head] pass a failed record
    request on to the requester. *)
Lemma snapshot_load_error env socketWrapper message h event errorMessage :
  requestOutcome env (name message) socketWrapper
    = LoadFailed event errorMessage →
  snapshot env socketWrapper message h
  = (tt, h,
     [RecordRequest (name message) socketWrapper;
      SendMessage socketWrapper
        (withOriginalAction (action message) (literal event (name message)))
        false]).
Proof.
  intros Hfailed. unfold snapshot. rewrite recordRequest_run, Hfailed.
  reflexivity.
Qed.

Lemma head_load_error env socketWrapper message h event errorMessage :
  requestOutcome env (name message) socketWrapper
    = LoadFailed event errorMessage →
  head env socketWrapper message h
  = (tt, h,
     [RecordRequest (name message) socketWrapper;
      SendMessage socketWrapper
        (withOriginalAction (action message) (literal event (name message)))
        false]).
Proof.
  intros Hfailed. unfold head, headCall. rewrite recordRequest_run, Hfailed.
  reflexivity.
Qed.

(** C4, at [createOrRead].  When the record request of a
    SUBSCRIBE_CREATE_AND_READ reports a failure, the handler does nothing:
    the only call in the trace is the record request, no message goes to the
    requester. *)
Theorem createOrRead_load_error (env : Env) (socketWrapper : SocketWrapper)
    (message : Message) (h : RecordHandler) (event : RA.t)
    (errorMessage : string) :
  requestOutcome env (name message) socketWrapper
    = LoadFailed event errorMessage →
  createOrRead env socketWrapper message h
    = (tt, h, [RecordRequest (name message) socketWrapper])
  ∧ (action message = RA.SUBSCRIBECREATEANDREAD → isWriteAck message = false →
     handle env socketWrapper message h
       = (tt, h, [RecordRequest (name message) socketWrapper])).
Proof.
  intros Hfailed.
  assert (createOrRead env socketWrapper message h
          = (tt, h, [RecordRequest (name message) socketWrapper])) as Hrun.
  { unfold createOrRead. rewrite recordRequest_run, Hfailed. reflexivity. }
  split; [exact Hrun|].
  intros Hact Hack. unfold handle. by rewrite Hack, Hact.
Qed.

Lemma createOrRead_load_error_witness :
  let h := newRecordHandler Sample.plainConfig in
  handle Sample.failing Sample.alice
    (Sample.request RA.SUBSCRIBECREATEANDREAD "a/1") h
  = (tt, h, [RecordRequest "a/1" Sample.alice])
  ∧ handle Sample.failing Sample.alice (Sample.request RA.READ "a/1") h
    = (tt, h,
       [RecordRequest "a/1" Sample.alice;
        SendMessage Sample.alice
          {| topic := TOPIC.RECORD; action := RA.RECORD_LOAD_ERROR;
             name := "a/1"; originalAction := Some RA.READ; version := None;
             path := None; data := None; parsedData := None;
             isWriteAck := false; correlationId := None |} false]).
Proof.
  intros h. split.
  - apply (proj2 (createOrRead_load_error Sample.failing Sample.alice
                    (Sample.request RA.SUBSCRIBECREATEANDREAD "a/1") h
                    RA.RECORD_LOAD_ERROR "cache down" eq_refl));
      reflexivity.
  - apply (snapshot_load_error Sample.failing Sample.alice
             (Sample.request RA.READ "a/1") h RA.RECORD_LOAD_ERROR
             "cache down" eq_refl).
Defined.

(** ** The hot path *)

Section HotPath.
Variable env : Env.

Lemma hotPathLoop_update prefixes recordName message originalAction
    socketWrapper h :
  hotPathLoop env prefixes recordName false message originalAction
    socketWrapper h
  = if matchesHotPath prefixes recordName
    then let run := hotPathWrite env recordName message originalAction
                      socketWrapper h in
         (true, after run, trace run)
    else (false, h, []).
Proof.
  induction prefixes as [|pattern rest IH]; [done|].
  cbn [hotPathLoop matchesHotPath existsb].
  destruct (negb (indexOf recordName pattern =? -1)%Z);
    cbn [andb orb negb]; [|exact IH].
  run_method. by rewrite app_nil_r.
Qed.

Lemma hotPathLoop_patch pattern rest recordName message originalAction
    socketWrapper h :
  hotPathLoop env (pattern :: rest) recordName true message originalAction
    socketWrapper h
  = (true, h,
     [SendMessage socketWrapper
        (withOriginalAction (action message)
           (literal RA.INVALID_PATCH_ON_HOTPATH recordName)) false]).
Proof. cbn [hotPathLoop]. by rewrite andb_false_r. Qed.

Lemma createAndUpdate_hot socketWrapper message h :
  path message = None →
  matchesHotPath (storageHotPathPrefixes (config h)) (name message) = true →
  createAndUpdate env socketWrapper message h
  = hotPathWrite env (name message) (withAction RA.UPDATE message)
      (action message) socketWrapper h.
Proof.
  intros Hpath Hmatch. unfold createAndUpdate. rewrite Hpath.
  change (bool_decide (is_Some (@None string))) with false. cbv iota.
  run_method. rewrite hotPathLoop_update, Hmatch. run_method.
  rewrite app_nil_r.
  by destruct (hotPathWrite _ _ _ _ _ h) as [[[] ?] ?].
Qed.

Lemma forceWrite_writes recordName message socketWrapper h :
  backendWrites (trace (forceWrite env recordName message socketWrapper h))
  = let record :=
      {| _v := 0;
         _d := default JUndefined (parseData env socketWrapper message) |} in
    [StorageSet recordName record; CacheSet recordName record].
Proof.
  unfold forceWrite, forceWriteStorageCallback, forceWriteCacheCallback,
    handleForceWriteAcknowledgement, broadcastUpdate.
  cbn [parsedData withParsedData isWriteAck]. cbv zeta.
  set (record := {| _v := 0; _d := _ |}).
  by destruct (storageAnswersFirst env), (isWriteAck message),
    (cacheSet env recordName record), (storageSet env recordName record).
Qed.

Lemma permissionAction_writes actionToPermission message originalAction
    socketWrapper k h :
  backendWrites (trace (permissionAction env actionToPermission message
                          originalAction socketWrapper k h)) = []
  ∨ backendWrites (trace (permissionAction env actionToPermission message
                            originalAction socketWrapper k h))
    = backendWrites (trace (k h)).
Proof.
  unfold permissionAction. rewrite trace_andThen.
  destruct (canPerformAction env _ _ _ _) as [[e|] [|]]; cbn [fst snd].
  - left. rewrite onPermissionResponse_refusal by (by left). done.
  - left. rewrite onPermissionResponse_refusal by (by left). done.
  - right. done.
  - left. rewrite onPermissionResponse_refusal by (by right). done.
Qed.

Lemma hotPathWrite_writes recordName message originalAction socketWrapper h :
  let record :=
    {| _v := 0;
       _d := default JUndefined (parseData env socketWrapper message) |} in
  (backendWrites (trace (hotPathWrite env recordName message originalAction
                           socketWrapper h)) = []
   ∨ backendWrites (trace (hotPathWrite env recordName message originalAction
                             socketWrapper h))
     = [StorageSet recordName record; CacheSet recordName record])
  ∧ (canPerformAction env (user socketWrapper) (withAction RA.CREATE message)
       (authData socketWrapper) socketWrapper = (None, true) →
     canPerformAction env (user socketWrapper) (withAction RA.UPDATE message)
       (authData socketWrapper) socketWrapper = (None, true) →
     backendWrites (trace (hotPathWrite env recordName message originalAction
                             socketWrapper h))
     = [StorageSet recordName record; CacheSet recordName record]).
Proof.
  intros record. unfold hotPathWrite. split.
  - destruct (permissionAction_writes RA.CREATE message originalAction
                socketWrapper
                (permissionAction env RA.UPDATE message originalAction
                   socketWrapper
                   (forceWrite env recordName message socketWrapper)) h)
      as [->| ->]; [by left|].
    destruct (permissionAction_writes RA.UPDATE message originalAction
                socketWrapper
                (forceWrite env recordName message socketWrapper) h)
      as [->| ->]; [by left|].
    right. apply forceWrite_writes.
  - intros Hcreate Hupdate.
    rewrite (permissionAction_allowed _ _ _ _ _ _ _ Hcreate).
    rewrite (permissionAction_allowed _ _ _ _ _ _ _ Hupdate).
    cbn [trace snd]. apply forceWrite_writes.
Qed.

(** A name that starts with a configured pattern passes the test of the
    loop, which asks for an occurrence anywhere in the name. *)
Lemma prefix_matchesHotPath prefixes pattern recordName :
  pattern ∈ prefixes →
  String.prefix pattern recordName = true →
  matchesHotPath prefixes recordName = true.
Proof.
  intros Hin Hprefix. apply List.existsb_exists. exists pattern.
  split; [by apply list_elem_of_In|].
  unfold indexOf.
  destruct (String.index 0 pattern recordName) as [i|] eqn:Hindex.
  - apply negb_true_iff, Z.eqb_neq. lia.
  - apply String.prefix_correct in Hprefix.
    destruct pattern as [|a pattern'].
    + apply String.index_correct4 in Hindex. lia.
    + by destruct (String.index_correct3 0 0 _ _ Hindex).
Qed.

Lemma elem_of_backendWrites e tr : e ∈ backendWrites tr → e ∈ tr.
Proof.
  intros Hin%list_elem_of_In%List.filter_In. apply list_elem_of_In. tauto.
Qed.

Lemma backendWrites_elem_of e tr :
  e ∈ tr → isBackendWrite e = true → e ∈ backendWrites tr.
Proof.
  intros Hin He. apply list_elem_of_In, List.filter_In.
  split; [by apply list_elem_of_In|done].
Qed.

End HotPath.

(** C1, as the code has it.  For a CREATE_AND_UPDATE without a path whose
    name contains a configured hot-path pattern: whatever version the
    message carries, every record the handler writes to the cache or to the
    storage layer is written under the name of the message with version 0
    and the parsed data of the message; and when the CREATE and the UPDATE
    check are both allowed, the writes are exactly one to storage and one to
    the cache, of that record. *)
Theorem hot_path_write_version (env : Env) (socketWrapper : SocketWrapper)
    (message : Message) (h : RecordHandler) :
  path message = None →
  matchesHotPath (storageHotPathPrefixes (config h)) (name message) = true →
  let message' := withAction RA.UPDATE message in
  let record :=
    {| _v := 0;
       _d := default JUndefined (parseData env socketWrapper message') |} in
  let run := createAndUpdate env socketWrapper message h in
  (∀ e, e ∈ trace run → isBackendWrite e = true →
        e = StorageSet (name message) record
        ∨ e = CacheSet (name message) record)
  ∧ (canPerformAction env (user socketWrapper) (withAction RA.CREATE message)
       (authData socketWrapper) socketWrapper = (None, true) →
     canPerformAction env (user socketWrapper) (withAction RA.UPDATE message)
       (authData socketWrapper) socketWrapper = (None, true) →
     backendWrites (trace run)
     = [StorageSet (name message) record; CacheSet (name message) record]).
Proof.
  intros Hpath Hmatch message' record run. subst run.
  rewrite (createAndUpdate_hot env _ _ _ Hpath Hmatch).
  destruct (hotPathWrite_writes env (name message) message' (action message)
              socketWrapper h) as [Hall Hboth].
  fold record in Hall, Hboth. unfold message' in Hall, Hboth.
  split; [|exact Hboth].
  intros e Hin He. apply (backendWrites_elem_of _ _ Hin) in He.
  destruct Hall as [Hnone|Hwrites]; rewrite ?Hnone, ?Hwrites in He.
  - by apply elem_of_nil in He.
  - apply elem_of_cons in He as [->|He]; [by left|].
    apply list_elem_of_singleton in He as ->. by right.
Qed.

Lemma hot_path_write_version_witness :
  let message :=
    {| topic := TOPIC.RECORD; action := RA.CREATEANDUPDATE; name := "hot/x";
       originalAction := None; version := Some 7%Z; path := None;
       data := Some "{}"; parsedData := None; isWriteAck := false;
       correlationId := None |} in
  let record := {| _v := 0; _d := JStr "{}" |} in
  backendWrites
    (trace (createAndUpdate Sample.calm Sample.alice message
              (newRecordHandler Sample.hotConfig)))
  = [StorageSet "hot/x" record; CacheSet "hot/x" record].
Proof.
  intros message record.
  apply (proj2 (hot_path_write_version Sample.calm Sample.alice message
                  (newRecordHandler Sample.hotConfig) eq_refl eq_refl));
    reflexivity.
Defined.

(** C1 in the words of the specification fails: a hot-path
    CREATE_AND_UPDATE that carries version 7 is written to the cache and to
    storage with version 0. *)
Lemma hot_path_write_drops_version :
  ¬ (∀ (env : Env) (socketWrapper : SocketWrapper) (message : Message)
       (h : RecordHandler) (recordName : string) (record : StorageRecord),
       path message = None →
       matchesHotPath (storageHotPathPrefixes (config h)) (name message)
         = true →
       CacheSet recordName record
         ∈ trace (createAndUpdate env socketWrapper message h)
       ∨ StorageSet recordName record
           ∈ trace (createAndUpdate env socketWrapper message h) →
       _v record = default 0%Z (version message)).
Proof.
  intros Hclaim.
  specialize (Hclaim Sample.calm Sample.alice
                {| topic := TOPIC.RECORD; action := RA.CREATEANDUPDATE;
                   name := "hot/x"; originalAction := None;
                   version := Some 7%Z; path := None; data := Some "{}";
                   parsedData := None; isWriteAck := false;
                   correlationId := None |}
                (newRecordHandler Sample.hotConfig) "hot/x"
                {| _v := 0; _d := JStr "{}" |} eq_refl eq_refl).
  assert (0 = 7)%Z as Habsurd; [|discriminate Habsurd].
  apply Hclaim. left. vm_compute. do 4 apply list_elem_of_further.
  apply list_elem_of_here.
Qed.

(** C3, at the hot path.  A CREATE_AND_UPDATE without a path whose name
    contains a hot-path pattern and which passes both permission checks is
    written to the storage layer also when the name starts with a storage
    exclusion prefix. *)
Theorem hot_path_write_ignores_exclusion (env : Env)
    (socketWrapper : SocketWrapper) (message : Message) (h : RecordHandler) :
  path message = None →
  matchesHotPath (storageHotPathPrefixes (config h)) (name message) = true →
  isExcluded (storageExclusionPrefixes (config h)) (name message) = true →
  canPerformAction env (user socketWrapper) (withAction RA.CREATE message)
    (authData socketWrapper) socketWrapper = (None, true) →
  canPerformAction env (user socketWrapper) (withAction RA.UPDATE message)
    (authData socketWrapper) socketWrapper = (None, true) →
  StorageSet (name message)
    {| _v := 0;
       _d := default JUndefined
               (parseData env socketWrapper (withAction RA.UPDATE message)) |}
    ∈ trace (createAndUpdate env socketWrapper message h).
Proof.
  intros Hpath Hmatch _ Hcreate Hupdate.
  apply elem_of_backendWrites.
  rewrite (createAndUpdate_hot env _ _ _ Hpath Hmatch).
  rewrite (proj2 (hotPathWrite_writes env (name message)
                    (withAction RA.UPDATE message) (action message)
                    socketWrapper h) Hcreate Hupdate).
  apply list_elem_of_here.
Qed.

Lemma hot_path_write_ignores_exclusion_witness :
  isExcluded (storageExclusionPrefixes Sample.hotConfig) "hot/x" = true
  ∧ StorageSet "hot/x" {| _v := 0; _d := JUndefined |}
      ∈ trace (handle Sample.calm Sample.alice
                 (Sample.request RA.CREATEANDUPDATE "hot/x")
                 (newRecordHandler Sample.hotConfig)).
Proof.
  split; [reflexivity|].
  apply (hot_path_write_ignores_exclusion Sample.calm Sample.alice
           (Sample.request RA.CREATEANDUPDATE "hot/x")
           (newRecordHandler Sample.hotConfig)); reflexivity.
Defined.

Lemma readAndSubscribe_writes env message record socketWrapper h :
  backendWrites (trace (readAndSubscribe env message record socketWrapper h))
  = [].
Proof.
  unfold readAndSubscribe.
  by destruct (permissionAction_writes env RA.READ message (action message)
                 socketWrapper
                 (call (Subscribe (withAction RA.SUBSCRIBE message)
                          socketWrapper);;;
                  sendRecord (name message) record socketWrapper) h)
    as [-> | ->].
Qed.

Lemma readAndSubscribe_state env message record socketWrapper h :
  after (readAndSubscribe env message record socketWrapper h) = h.
Proof.
  unfold readAndSubscribe, permissionAction. run_method.
  destruct (canPerformAction env _ _ _ _) as [[e|] [|]]; cbn [fst snd];
    rewrite ?onPermissionResponse_refusal by (first [by left|by right]);
    reflexivity.
Qed.

Lemma create_backend_writes env message socketWrapper h :
  backendWrites (trace (create env message socketWrapper None h))
  = CacheSet (name message) {| _v := 0; _d := JObj [] |}
    :: (if isExcluded (storageExclusionPrefixes (config h)) (name message)
        then []
        else [StorageSet (name message) {| _v := 0; _d := JObj [] |}]).
Proof.
  set (record := {| _v := 0; _d := JObj [] |}).
  pose proof (readAndSubscribe_writes env message record socketWrapper h)
    as Hread.
  pose proof (readAndSubscribe_state env message record socketWrapper h)
    as Hstate.
  unfold backendWrites in *. run_method_in Hread. run_method_in Hstate.
  unfold create. run_method. fold record.
  destruct (cacheAnswersInSet env);
    destruct (cacheSet env (name message) record) as [ce|];
    cbn [fst snd]; rewrite ?Hstate;
    destruct (isExcluded _ _); cbn [negb];
    try destruct (storageAnswersFirst env);
    try destruct (storageSet env (name message) record) as [se|];
    cbn [List.filter isBackendWrite app]; rewrite ?List.filter_app;
    cbn [List.filter isBackendWrite app];
    rewrite ?app_nil_r, ?Hread; done.
Qed.

(** [create], the other writer of the handler, does ask [isExcluded]: for an
    excluded name its only write goes to the cache. *)
Lemma create_excluded env message socketWrapper h :
  isExcluded (storageExclusionPrefixes (config h)) (name message) = true →
  backendWrites (trace (create env message socketWrapper None h))
  = [CacheSet (name message) {| _v := 0; _d := JObj [] |}].
Proof. intros Hexcluded. by rewrite create_backend_writes, Hexcluded. Qed.

(** C2, at a name off the hot path.  Once a hot-path pattern is configured,
    a CREATE_AND_PATCH (a message with a path) is answered with
    INVALID_PATCH_ON_HOTPATH and goes no further, whatever its name; with no
    pattern configured it goes on to the transition of the name, or to
    [update] when there is none.  What it takes for the transition of the
    name is [transitions[name]]: for a name with no transition that every
    object inherits, the inherited value, whose [add] is a TypeError once
    the PATCH check has passed. *)
Theorem patch_refused_on_any_name (env : Env) (socketWrapper : SocketWrapper)
    (message : Message) (h : RecordHandler) (p : string) :
  path message = Some p →
  let message' := withAction RA.PATCH message in
  (storageHotPathPrefixes (config h) ≠ [] →
   createAndUpdate env socketWrapper message h
   = (tt, h,
      [SendMessage socketWrapper
         {| topic := TOPIC.RECORD; action := RA.INVALID_PATCH_ON_HOTPATH;
            name := name message; originalAction := Some RA.PATCH;
            version := None; path := None; data := None; parsedData := None;
            isWriteAck := false; correlationId := None |} false]))
  ∧ (storageHotPathPrefixes (config h) = [] →
     createAndUpdate env socketWrapper message h
     = match getProperty (transitions h) (name message) with
       | Own transition =>
           permissionAction env RA.PATCH message' (action message)
             socketWrapper
             (call (TransitionAdd transition socketWrapper message' None)) h
       | Inherited _ =>
           permissionAction env RA.PATCH message' (action message)
             socketWrapper (call (ThrowTypeError "add")) h
       | Undefined =>
           permissionAction env RA.CREATE message' (action message)
             socketWrapper
             (permissionAction env RA.UPDATE message' (action message)
                socketWrapper (update env socketWrapper message' true)) h
       end).
Proof.
  intros Hpath message'. unfold createAndUpdate. rewrite Hpath.
  change (bool_decide (is_Some (Some p))) with true. cbv iota. fold message'.
  split.
  - destruct (storageHotPathPrefixes (config h)) as [|pattern rest] eqn:Hcfg;
      [done|]. intros _.
    run_method. rewrite Hcfg, hotPathLoop_patch. reflexivity.
  - intros Hcfg. run_method. rewrite Hcfg. cbn [hotPathLoop]. run_method.
    destruct (getProperty (transitions h) (name message)) as [t|len|].
    + by destruct (permissionAction _ _ _ _ _ _ h) as [[[] ?] ?].
    + by destruct (permissionAction _ _ _ _ _ _ h) as [[[] ?] ?].
    + by destruct (permissionAction _ _ _ _ _ _ h) as [[[] ?] ?].
Qed.

Lemma patch_refused_on_any_name_witness :
  let message :=
    {| topic := TOPIC.RECORD; action := RA.CREATEANDPATCH; name := "cold/x";
       originalAction := None; version := Some 1%Z; path := Some "a";
       data := Some "1"; parsedData := None; isWriteAck := false;
       correlationId := None |} in
  let h := newRecordHandler Sample.hotConfig in
  matchesHotPath (storageHotPathPrefixes (config h)) (name message) = false
  ∧ handle Sample.calm Sample.alice message h
    = (tt, h,
       [SendMessage Sample.alice
          {| topic := TOPIC.RECORD; action := RA.INVALID_PATCH_ON_HOTPATH;
             name := "cold/x"; originalAction := Some RA.PATCH;
             version := None; path := None; data := None; parsedData := None;
             isWriteAck := false; correlationId := None |} false]).
Proof.
  intros message h. split; [reflexivity|].
  apply (proj1 (patch_refused_on_any_name Sample.calm Sample.alice message h
                  "a" eq_refl)).
  discriminate.
Defined.

(** ** Scenarios *)

(** A SUBSCRIBE_CREATE_AND_READ for a record that is nowhere: the record is
    created at version 0 with empty data, the sender is subscribed and
    receives it. *)
Example cold_create_and_read :
  let message := Sample.request RA.SUBSCRIBECREATEANDREAD "a/1" in
  let record := {| _v := 0; _d := JObj [] |} in
  trace (handle Sample.calm Sample.alice message
           (newRecordHandler Sample.plainConfig))
  = [RecordRequest "a/1" Sample.alice;
     CanPerformAction "alice" (withAction RA.CREATE message) JNull Sample.alice;
     CacheSet "a/1" record;
     StorageSet "a/1" record;
     CanPerformAction "alice" (withAction RA.READ message) JNull Sample.alice;
     Subscribe (withAction RA.SUBSCRIBE message) Sample.alice;
     SendMessage Sample.alice
       {| topic := TOPIC.RECORD; action := RA.READ_RESPONSE; name := "a/1";
          originalAction := None; version := Some 0%Z; path := None;
          data := None; parsedData := Some (JObj []); isWriteAck := false;
          correlationId := None |} false].
Proof. reflexivity. Qed.

(** A hot-path write with write acknowledgement: no transition is made, both
    layers are written, the update is broadcast and acknowledged once both
    layers have answered. *)
Example hot_path_write_with_ack :
  let message :=
    {| topic := TOPIC.RECORD; action := RA.CREATEANDUPDATE_WITH_WRITE_ACK;
       name := "hot/x"; originalAction := None; version := Some 7%Z;
       path := None; data := Some "{}"; parsedData := None;
       isWriteAck := true; correlationId := None |} in
  let written := withParsedData (Some (JStr "{}")) (withAction RA.UPDATE message) in
  let record := {| _v := 0; _d := JStr "{}" |} in
  let run := handle Sample.calm Sample.alice message
               (newRecordHandler Sample.hotConfig) in
  transitions (after run) = ∅
  ∧ trace run
    = [CanPerformAction "alice" (withAction RA.CREATE message) JNull
         Sample.alice;
       CanPerformAction "alice" (withAction RA.UPDATE message) JNull
         Sample.alice;
       ParseData Sample.alice (withAction RA.UPDATE message);
       StorageSet "hot/x" record;
       CacheSet "hot/x" record;
       SendToSubscribers "hot/x" written false Sample.alice;
       SendMessage Sample.alice
         {| topic := TOPIC.RECORD; action := RA.WRITE_ACKNOWLEDGEMENT;
            name := "hot/x"; originalAction := None; version := None;
            path := None; data := None;
            parsedData := Some (JArr [JNum 7; JNull]); isWriteAck := false;
            correlationId := None |} true].
Proof. split; reflexivity. Qed.

(** Two updates of one record, then its deletion: the second update joins
    the transition made by the first, the deletion destroys it. *)
Example update_update_delete :
  let first := Sample.request RA.UPDATE "r" in
  let second := withVersion 2 (Sample.request RA.UPDATE "r") in
  let h1 := after (handle Sample.calm Sample.alice first
                     (newRecordHandler Sample.plainConfig)) in
  let run2 := handle Sample.calm Sample.alice second h1 in
  let run3 := handle Sample.calm Sample.alice (Sample.request RA.DELETE "r")
                (after run2) in
  transitions h1 !! "r" = Some 0
  ∧ trace run2 = [TransitionAdd 0 Sample.alice second (Some false)]
  ∧ transitions (after run2) !! "r" = Some 0
  ∧ trace run3
    = [TransitionDestroy 0;
       NewRecordDeletion Sample.alice (Sample.request RA.DELETE "r");
       SendToSubscribers "r" (Sample.request RA.DELETE "r") true Sample.alice]
  ∧ transitions (after run3) !! "r" = None.
Proof. repeat split; vm_compute; reflexivity. Qed.

(** The same SUBSCRIBE_CREATE_AND_READ with a cache that calls back inside
    [set]: the sender is subscribed and sent the record before the storage
    layer is written. *)
Example cold_create_with_a_prompt_cache :
  let message := Sample.request RA.SUBSCRIBECREATEANDREAD "a/1" in
  let record := {| _v := 0; _d := JObj [] |} in
  trace (handle Cases.promptCache Sample.alice message
           (newRecordHandler Sample.plainConfig))
  = [RecordRequest "a/1" Sample.alice;
     CanPerformAction "alice" (withAction RA.CREATE message) JNull Sample.alice;
     CacheSet "a/1" record;
     CanPerformAction "alice" (withAction RA.READ message) JNull Sample.alice;
     Subscribe (withAction RA.SUBSCRIBE message) Sample.alice;
     SendMessage Sample.alice
       {| topic := TOPIC.RECORD; action := RA.READ_RESPONSE; name := "a/1";
          originalAction := None; version := Some 0%Z; path := None;
          data := None; parsedData := Some (JObj []); isWriteAck := false;
          correlationId := None |} false;
     StorageSet "a/1" record].
Proof. reflexivity. Qed.

(** A name that every object inherits: a local UPDATE of "constructor" on a
    new handler takes the inherited function for the transition of the name
    and ends in a TypeError; no transition is made. *)
Example update_of_an_inherited_name :
  let run := handle Sample.calm Sample.alice
               (Sample.request RA.UPDATE "constructor")
               (newRecordHandler Sample.plainConfig) in
  trace run = [ThrowTypeError "hasVersion"] ∧ transitions (after run) = ∅.
Proof. split; reflexivity. Qed.

(** * Further properties of the handler *)

(** ** Dispatch *)

Lemma handle_dispatched env socketWrapper message h :
  dispatched message = None →
  handle env socketWrapper message h
  = (tt, h, [LoggerError LogUnknownAction (DAction None)]).
Proof. unfold dispatched, handle. by intros ->. Qed.

(** X1. The write-acknowledgement flag and the write-acknowledgement actions
    go together or not at all.  A message flagged [isWriteAck] whose action
    is not one of the five WITH_WRITE_ACK actions, and a message with one of
    these actions that is not flagged, are both dropped: the handler logs an
    unknown action, keeps its state and calls nothing else. *)
Theorem handle_write_ack_mismatch (env : Env) (socketWrapper : SocketWrapper)
    (message : Message) (h : RecordHandler) :
  (isWriteAck message = true →
   WRITE_ACK_TO_ACTION (action message) = None →
   handle env socketWrapper message h
   = (tt, h, [LoggerError LogUnknownAction (DAction None)]))
  ∧ (isWriteAck message = false →
     is_Some (WRITE_ACK_TO_ACTION (action message)) →
     handle env socketWrapper message h
     = (tt, h, [LoggerError LogUnknownAction
                  (DAction (Some (action message)))])).
Proof.
  split.
  - intros Hack Hnone. apply handle_dispatched. unfold dispatched.
    by rewrite Hack.
  - intros Hack [base Hbase]. unfold handle. rewrite Hack.
    by destruct (action message).
Qed.

Lemma handle_write_ack_mismatch_witness :
  let h := newRecordHandler Sample.plainConfig in
  let flagged :=
    {| topic := TOPIC.RECORD; action := RA.UPDATE; name := "r";
       originalAction := None; version := Some 1%Z; path := None;
       data := Some "{}"; parsedData := None; isWriteAck := true;
       correlationId := None |} in
  handle Sample.calm Sample.alice flagged h
  = (tt, h, [LoggerError LogUnknownAction (DAction None)])
  ∧ handle Sample.calm Sample.alice
      (Sample.request RA.UPDATE_WITH_WRITE_ACK "r") h
    = (tt, h, [LoggerError LogUnknownAction
                 (DAction (Some RA.UPDATE_WITH_WRITE_ACK))]).
Proof.
  intros h flagged. split.
  - apply (proj1 (handle_write_ack_mismatch Sample.calm Sample.alice flagged h));
      reflexivity.
  - apply (proj2 (handle_write_ack_mismatch Sample.calm Sample.alice
                    (Sample.request RA.UPDATE_WITH_WRITE_ACK "r") h));
      [reflexivity|by eexists].
Defined.

(** ** Updates *)

Lemma handle_update env socketWrapper message h :
  dispatched message = Some RA.UPDATE ∨ dispatched message = Some RA.PATCH
  ∨ dispatched message = Some RA.ERASE →
  handle env socketWrapper message h
  = update env socketWrapper message (isWriteAck message) h.
Proof.
  unfold dispatched, handle. rewrite orb_false_r.
  by intros [-> | [-> | ->]].
Qed.

(** X2. An UPDATE, PATCH or ERASE that arrives from a remote socket (the
    message bus) is broadcast to the subscribers of the name once, without
    delay flag, and that is all: the table of transitions is not read or
    changed, no transition is made or called, nothing is written. *)
Theorem remote_update_is_broadcast_only (env : Env)
    (socketWrapper : SocketWrapper) (message : Message) (h : RecordHandler) :
  isRemote socketWrapper = true →
  dispatched message = Some RA.UPDATE ∨ dispatched message = Some RA.PATCH
  ∨ dispatched message = Some RA.ERASE →
  handle env socketWrapper message h
  = (tt, h,
     [SendToSubscribers (name message)
        (withAction (writeAction message) message) false socketWrapper]).
Proof.
  intros Hremote Hact. rewrite (handle_update _ _ _ _ Hact).
  unfold update. by rewrite Hremote.
Qed.

Lemma remote_update_is_broadcast_only_witness :
  handle Sample.calm Cases.peer (Sample.request RA.ERASE "r") Cases.busy
  = (tt, Cases.busy,
     [SendToSubscribers "r" (Sample.request RA.UPDATE "r") false Cases.peer]).
Proof.
  apply (remote_update_is_broadcast_only Sample.calm Cases.peer
           (Sample.request RA.ERASE "r") Cases.busy eq_refl).
  right. right. reflexivity.
Defined.

(** X3. Whatever [handle] hands on for an UPDATE, PATCH or ERASE, to a
    transition or to the subscribers, is the incoming message with its
    action set to PATCH when it has a path and to UPDATE when it has none:
    ERASE and the WITH_WRITE_ACK actions are never handed on.  A step added
    to a transition carries the write-acknowledgement flag of the message as
    its upsert flag. *)
Theorem update_hands_on_patch_or_update (env : Env)
    (socketWrapper : SocketWrapper) (message : Message) (h : RecordHandler)
    (e : Effect) :
  dispatched message = Some RA.UPDATE ∨ dispatched message = Some RA.PATCH
  ∨ dispatched message = Some RA.ERASE →
  e ∈ trace (handle env socketWrapper message h) →
  (∀ msg, forwarded e = Some msg →
          msg = withAction (writeAction message) message)
  ∧ (∀ ref s msg upsert, e = TransitionAdd ref s msg upsert →
       s = socketWrapper ∧ upsert = Some (isWriteAck message)).
Proof.
  intros Hact. rewrite (handle_update _ _ _ _ Hact).
  destruct (isRemote socketWrapper) eqn:Hremote.
  - unfold update. rewrite Hremote. cbn [broadcastUpdate call trace snd].
    intros He%list_elem_of_singleton. subst e.
    split; [by intros msg [= <-]|done].
  - rewrite (update_local _ _ _ _ _ Hremote). cbv zeta.
    destruct (getProperty (transitions h) (name message)) as [t|len|];
      cbn [trace snd].
    + intros He%list_elem_of_singleton. subst e.
      destruct (hasVersion env t (version message)).
      * split; [by intros msg [= <-]|done].
      * split; [by intros msg [= <-]|by intros ???? [= <- <- <- <-]].
    + intros He%list_elem_of_singleton. subst e. split; [done|done].
    + intros [He|He%list_elem_of_singleton]%elem_of_cons; subst e.
      * split; [done|done].
      * split; [by intros msg [= <-]|by intros ???? [= <- <- <- <-]].
Qed.

Lemma update_hands_on_patch_or_update_witness :
  let erase :=
    {| topic := TOPIC.RECORD; action := RA.ERASE_WITH_WRITE_ACK; name := "r";
       originalAction := None; version := Some 2%Z; path := Some "a.b";
       data := None; parsedData := None; isWriteAck := true;
       correlationId := None |} in
  let e := TransitionAdd 0 Sample.alice (withAction RA.PATCH erase) (Some true) in
  e ∈ trace (handle Sample.calm Sample.alice erase Cases.busy)
  ∧ forwarded e = Some (withAction RA.PATCH erase).
Proof.
  intros erase e.
  assert (e ∈ trace (handle Sample.calm Sample.alice erase Cases.busy)) as Hin.
  { vm_compute. apply list_elem_of_here. }
  split; [exact Hin|].
  destruct (update_hands_on_patch_or_update Sample.calm Sample.alice erase
              Cases.busy e (or_intror (or_intror eq_refl)) Hin) as [Hmsg _].
  rewrite (Hmsg (withAction RA.PATCH erase) eq_refl). reflexivity.
Defined.

(** ** The hot-path writer *)

Lemma forceWrite_hands_on env recordName message socketWrapper h :
  after (forceWrite env recordName message socketWrapper h) = h
  ∧ tableEvents (trace (forceWrite env recordName message socketWrapper h))
    = []
  ∧ ∀ e msg,
      e ∈ trace (forceWrite env recordName message socketWrapper h) →
      forwarded e = Some msg →
      e = SendToSubscribers recordName msg false socketWrapper.
Proof.
  unfold forceWrite, forceWriteStorageCallback, forceWriteCacheCallback,
    handleForceWriteAcknowledgement, broadcastUpdate.
  cbn [parsedData withParsedData isWriteAck name version]. cbv zeta.
  set (record := {| _v := 0; _d := _ |}).
  destruct (storageAnswersFirst env), (isWriteAck message),
    (cacheSet env recordName record) as [ce|],
    (storageSet env recordName record) as [se|];
    (split; [done|]); (split; [done|]); intros e msg Hin Hfwd;
    cbn in Hin;
    repeat (apply elem_of_cons in Hin as [->|Hin];
            [by (discriminate Hfwd || (injection Hfwd as <-))|]);
    by apply elem_of_nil in Hin.
Qed.

(** X4. [forceWrite] comes out the same whichever of the two layers answers
    first: it parses the data, writes the record to storage and to the
    cache, broadcasts the message (with its parsed data) exactly when the
    cache write succeeded, and, exactly when a write acknowledgement was
    asked for, sends one WRITE_ACKNOWLEDGEMENT after the broadcast, carrying
    the version of the message and the error of the layer that answered
    first with one, or null.  The handler state is unchanged. *)
Theorem forceWrite_acknowledges_once (env : Env) (recordName : string)
    (message : Message) (socketWrapper : SocketWrapper) (h : RecordHandler) :
  let parsed := withParsedData (parseData env socketWrapper message) message in
  let record :=
    {| _v := 0;
       _d := default JUndefined (parseData env socketWrapper message) |} in
  let cacheError := cacheSet env recordName record in
  let storageError := storageSet env recordName record in
  let reported :=
    if storageAnswersFirst env then orError storageError cacheError
    else orError cacheError storageError in
  let acknowledgement :=
    {| topic := TOPIC.RECORD; action := RA.WRITE_ACKNOWLEDGEMENT;
       name := name message; originalAction := None; version := None;
       path := None; data := None;
       parsedData :=
         Some (JArr [match version message with
                     | Some v => JNum v
                     | None => JUndefined
                     end;
                     match reported with
                     | Some e => JErr e
                     | None => JNull
                     end]);
       isWriteAck := false; correlationId := None |} in
  forceWrite env recordName message socketWrapper h
  = (tt, h,
     [ParseData socketWrapper message;
      StorageSet recordName record;
      CacheSet recordName record]
     ++ match cacheError with
        | None => [SendToSubscribers recordName parsed false socketWrapper]
        | Some _ => []
        end
     ++ if isWriteAck message
        then [SendMessage socketWrapper acknowledgement true]
        else []).
Proof.
  intros parsed record cacheError storageError reported acknowledgement.
  subst acknowledgement reported.
  unfold forceWrite, forceWriteStorageCallback, forceWriteCacheCallback,
    handleForceWriteAcknowledgement, broadcastUpdate.
  cbn [parsedData withParsedData isWriteAck name version]. cbv zeta.
  fold record. fold cacheError storageError. fold parsed.
  by destruct (storageAnswersFirst env), (isWriteAck message),
    cacheError, storageError.
Qed.

(** ** Creating a record *)

Lemma sentMessages_app tr1 tr2 :
  sentMessages (tr1 ++ tr2) = sentMessages tr1 ++ sentMessages tr2.
Proof. apply omap_app. Qed.

Lemma backendWrites_app tr1 tr2 :
  backendWrites (tr1 ++ tr2) = backendWrites tr1 ++ backendWrites tr2.
Proof. apply List.filter_app. Qed.

Lemma backendWrites_skip e tr :
  isBackendWrite e = false → backendWrites (e :: tr) = backendWrites tr.
Proof. intros He. unfold backendWrites. cbn [List.filter]. by rewrite He. Qed.

Lemma permissionAction_refused env actionToPermission message original
    socketWrapper k h :
  canPerformAction env (user socketWrapper)
    (withAction actionToPermission message) (authData socketWrapper)
    socketWrapper ≠ (None, true) →
  ∃ error reply,
    permissionAction env actionToPermission message original
      socketWrapper k h
    = (tt, h,
       CanPerformAction (user socketWrapper)
         (withAction actionToPermission message) (authData socketWrapper)
         socketWrapper
       :: match error with
          | Some e =>
              [LoggerError (LogRA RA.MESSAGE_PERMISSION_ERROR) (DError e)]
          | None => []
          end
       ++ [SendMessage socketWrapper reply false])
    ∧ action reply = match error with
                     | Some _ => RA.MESSAGE_PERMISSION_ERROR
                     | None => RA.MESSAGE_DENIED
                     end
    ∧ originalAction reply = Some original
    ∧ name reply = name message.
Proof.
  intros Hrefused. unfold permissionAction. run_method.
  destruct (canPerformAction env _ _ _ _) as [error ok].
  exists error. eexists. cbn [fst snd].
  rewrite onPermissionResponse_refusal.
  - split; [reflexivity|]. by destruct error.
  - destruct error; [by left|]. right. by destruct ok.
Qed.

(** X5. [create] writes the empty record at version 0 to the cache, and to
    storage as well unless the name starts with a storage exclusion prefix;
    it writes nothing else and leaves the handler state as it was. *)
Theorem create_writes (env : Env) (message : Message)
    (socketWrapper : SocketWrapper) (h : RecordHandler) :
  let record := {| _v := 0; _d := JObj [] |} in
  backendWrites (trace (create env message socketWrapper None h))
  = CacheSet (name message) record
    :: (if isExcluded (storageExclusionPrefixes (config h)) (name message)
        then []
        else [StorageSet (name message) record])
  ∧ after (create env message socketWrapper None h) = h.
Proof.
  intros record. split; [apply create_backend_writes|].
  pose proof (readAndSubscribe_state env message record socketWrapper h)
    as Hstate.
  run_method_in Hstate. unfold create. run_method. fold record.
  destruct (cacheAnswersInSet env);
    destruct (cacheSet env (name message) record) as [ce|];
    cbn [fst snd]; rewrite ?Hstate;
    destruct (isExcluded _ _); cbn [negb];
    try destruct (storageAnswersFirst env);
    try destruct (storageSet env (name message) record) as [se|];
    cbn [fst snd]; rewrite ?Hstate; done.
Qed.

(** X6. When the cache refuses the write of [create], the failure is logged
    and the requester is sent one RECORD_CREATE_ERROR naming the record and
    the action of the request, and is neither subscribed nor sent the
    record.  When the cache accepts it, the requester is sent what
    [readAndSubscribe] sends.  Either way the answer of the storage layer
    makes no difference to what is sent. *)
Theorem create_reports_cache_failure_only (env : Env) (message : Message)
    (socketWrapper : SocketWrapper) (h : RecordHandler) :
  let record := {| _v := 0; _d := JObj [] |} in
  sentMessages (trace (create env message socketWrapper None h))
  = match cacheSet env (name message) record with
    | Some _ =>
        [(socketWrapper,
          {| topic := TOPIC.RECORD; action := RA.RECORD_CREATE_ERROR;
             name := name message; originalAction := Some (action message);
             version := None; path := None; data := None; parsedData := None;
             isWriteAck := false; correlationId := None |})]
    | None =>
        sentMessages
          (trace (readAndSubscribe env message record socketWrapper h))
    end
  ∧ (is_Some (cacheSet env (name message) record) →
     ∀ msg s, Subscribe msg s
                ∉ trace (create env message socketWrapper None h)).
Proof.
  intros record.
  pose proof (readAndSubscribe_state env message record socketWrapper h)
    as Hstate.
  run_method_in Hstate.
  unfold create. run_method. fold record.
  destruct (cacheAnswersInSet env);
    destruct (cacheSet env (name message) record) as [ce|];
    cbn [fst snd]; rewrite ?Hstate;
    destruct (isExcluded _ _); cbn [negb];
    try destruct (storageAnswersFirst env);
    try destruct (storageSet env (name message) record) as [se|];
    unfold sentMessages; cbn [omap list_omap app];
    rewrite ?omap_app; cbn [omap list_omap app];
    rewrite ?app_nil_r, ?Hstate;
    (split; [done|]); intros [? Hsome]; try discriminate Hsome;
    intros msg s Hin;
    repeat (apply elem_of_cons in Hin as [Hin|Hin]; [discriminate Hin|]);
    by apply elem_of_nil in Hin.
Qed.

Lemma create_reports_cache_failure_only_witness :
  let message := Sample.request RA.SUBSCRIBECREATEANDREAD "a/1" in
  let h := newRecordHandler Sample.plainConfig in
  sentMessages (trace (create Cases.cacheDown message Sample.alice None h))
  = [(Sample.alice,
      {| topic := TOPIC.RECORD; action := RA.RECORD_CREATE_ERROR;
         name := "a/1"; originalAction := Some RA.SUBSCRIBECREATEANDREAD;
         version := None; path := None; data := None; parsedData := None;
         isWriteAck := false; correlationId := None |})]
  ∧ Subscribe (withAction RA.SUBSCRIBE message) Sample.alice
      ∉ trace (create Cases.cacheDown message Sample.alice None h).
Proof.
  intros message h.
  destruct (create_reports_cache_failure_only Cases.cacheDown message
              Sample.alice h) as [Hsent Hnone].
  split; [exact Hsent|]. apply Hnone. by eexists.
Defined.

(** ** Read or create *)

(** Decides the tests [if (error || !canPerformAction)] on a known answer. *)
Ltac known_answer :=
  cbn [fst snd];
  repeat match goal with
         | |- context [bool_decide (is_Some (@None ?A))] =>
             change (bool_decide (is_Some (@None A))) with false
         | |- context [bool_decide (is_Some (Some ?e))] =>
             change (bool_decide (is_Some (Some e))) with true
         end;
  cbn [orb negb]; run_method.

(** X7. [createOrRead] subscribes the requester in two cases and in no
    other: the record request found the record and the permission handler
    allows READ; or the request found the record absent, the permission
    handler allows CREATE, the cache took the new record, and the permission
    handler allows READ.  It then subscribes once, the requester, with the
    action of the message set to SUBSCRIBE.  A failed record request, a
    refused or failed CREATE or READ check, and a cache that refuses the new
    record all end without a subscription; the answer of the storage layer
    makes no difference. *)
Theorem createOrRead_subscribes_if_read_allowed (env : Env)
    (socketWrapper : SocketWrapper) (message : Message) (h : RecordHandler) :
  let subscription := (withAction RA.SUBSCRIBE message, socketWrapper) in
  subscriptions (trace (createOrRead env socketWrapper message h))
  = match requestOutcome env (name message) socketWrapper with
    | Loaded (Some _) =>
        if allows env socketWrapper message RA.READ then [subscription] else []
    | Loaded None =>
        if allows env socketWrapper message RA.CREATE
        then match cacheSet env (name message) {| _v := 0; _d := JObj [] |} with
             | Some _ => []
             | None =>
                 if allows env socketWrapper message RA.READ
                 then [subscription] else []
             end
        else []
    | LoadFailed _ _ => []
    end.
Proof.
  unfold allows, createOrRead. rewrite recordRequest_run. cbv zeta.
  cbn [trace snd].
  unfold create, readAndSubscribe, permissionAction, onPermissionResponse,
    sendRecord.
  run_method. cbn [withAction name action].
  destruct (requestOutcome env (name message) socketWrapper) as [[r|]|ev txt];
    [| |done].
  - destruct (canPerformAction env (user socketWrapper)
                (withAction RA.READ message) _ _) as [[e|] [|]];
      known_answer; reflexivity.
  - destruct (canPerformAction env (user socketWrapper)
                (withAction RA.CREATE message) _ _) as [[e|] [|]];
      known_answer; try reflexivity.
    set (record := {| _v := 0; _d := JObj [] |}).
    destruct (cacheAnswersInSet env);
      destruct (cacheSet env (name message) record) as [ce|];
      run_method;
      try destruct (canPerformAction env (user socketWrapper)
                      (withAction RA.READ message) (authData socketWrapper)
                      socketWrapper) as [[e|] [|]];
      known_answer;
      destruct (isExcluded (storageExclusionPrefixes (config h)) (name message));
      cbn [negb];
      try destruct (storageAnswersFirst env);
      try destruct (storageSet env (name message) record) as [se|];
      run_method; known_answer; reflexivity.
Qed.

Lemma createOrRead_subscribes_if_read_allowed_witness :
  let message := Sample.request RA.SUBSCRIBECREATEANDREAD "a/1" in
  let h := newRecordHandler Sample.plainConfig in
  subscriptions (trace (createOrRead Sample.calm Sample.alice message h))
  = [(withAction RA.SUBSCRIBE message, Sample.alice)]
  ∧ subscriptions (trace (createOrRead Cases.cacheDown Sample.alice message h))
    = []
  ∧ subscriptions (trace (createOrRead Sample.denying Sample.alice message h))
    = []
  ∧ subscriptions (trace (createOrRead Sample.failing Sample.alice message h))
    = [].
Proof.
  intros message h. split; [|split; [|split]].
  - apply (createOrRead_subscribes_if_read_allowed Sample.calm Sample.alice
             message h).
  - apply (createOrRead_subscribes_if_read_allowed Cases.cacheDown Sample.alice
             message h).
  - apply (createOrRead_subscribes_if_read_allowed Sample.denying Sample.alice
             message h).
  - apply (createOrRead_subscribes_if_read_allowed Sample.failing Sample.alice
             message h).
Defined.

(** X8. [createOrRead] writes to the cache or to storage only for a record
    that the record request found absent and only after the permission
    handler allowed CREATE without an error; what it then writes is the
    empty record at version 0 under the name of the message.  A record that
    exists is never written by it. *)
Theorem createOrRead_writes_if_absent_and_allowed (env : Env)
    (socketWrapper : SocketWrapper) (message : Message) (h : RecordHandler)
    (e : Effect) :
  e ∈ trace (createOrRead env socketWrapper message h) →
  isBackendWrite e = true →
  requestOutcome env (name message) socketWrapper = Loaded None
  ∧ canPerformAction env (user socketWrapper) (withAction RA.CREATE message)
      (authData socketWrapper) socketWrapper = (None, true)
  ∧ (e = CacheSet (name message) {| _v := 0; _d := JObj [] |}
     ∨ e = StorageSet (name message) {| _v := 0; _d := JObj [] |}).
Proof.
  intros Hin He. apply (backendWrites_elem_of _ _ Hin) in He. clear Hin.
  revert He. unfold createOrRead. rewrite recordRequest_run. cbv zeta.
  cbn [trace snd]. rewrite backendWrites_skip by done.
  destruct (requestOutcome env (name message) socketWrapper) as [[r|]|ev txt].
  - rewrite readAndSubscribe_writes. by intros ?%elem_of_nil.
  - assert (canPerformAction env (user socketWrapper)
              (withAction RA.CREATE message) (authData socketWrapper)
              socketWrapper = (None, true)
            ∨ canPerformAction env (user socketWrapper)
                (withAction RA.CREATE message) (authData socketWrapper)
                socketWrapper ≠ (None, true)) as [Hok|Hno].
    { destruct (canPerformAction env _ _ _ _) as [[err|] [|]];
        (by left) || (by right). }
    + rewrite (permissionAction_allowed _ _ _ _ _ _ _ Hok).
      cbn [trace snd]. rewrite backendWrites_skip by done.
      rewrite create_backend_writes.
      intros [->|Hin]%elem_of_cons; [by auto|].
      destruct (isExcluded _ _); [by apply elem_of_nil in Hin|].
      apply list_elem_of_singleton in Hin as ->. by auto.
    + destruct (permissionAction_refused env RA.CREATE message
                  (action message) socketWrapper
                  (create env message socketWrapper None) h Hno)
        as (err & reply & -> & _).
      destruct err; cbn; by intros ?%elem_of_nil.
  - cbn. by intros ?%elem_of_nil.
Qed.

Lemma createOrRead_writes_if_absent_and_allowed_witness :
  let message := Sample.request RA.SUBSCRIBECREATEANDREAD "a/1" in
  let e := CacheSet "a/1" {| _v := 0; _d := JObj [] |} in
  e ∈ trace (createOrRead Sample.calm Sample.alice message
               (newRecordHandler Sample.plainConfig))
  ∧ requestOutcome Sample.calm "a/1" Sample.alice = Loaded None.
Proof.
  intros message e.
  assert (e ∈ trace (createOrRead Sample.calm Sample.alice message
                       (newRecordHandler Sample.plainConfig))) as Hin.
  { vm_compute. do 2 apply list_elem_of_further. apply list_elem_of_here. }
  split; [exact Hin|].
  exact (proj1 (createOrRead_writes_if_absent_and_allowed Sample.calm
                  Sample.alice message (newRecordHandler Sample.plainConfig)
                  e Hin eq_refl)).
Defined.

Lemma readAndSubscribe_allowed env message record socketWrapper h :
  canPerformAction env (user socketWrapper) (withAction RA.READ message)
    (authData socketWrapper) socketWrapper = (None, true) →
  readAndSubscribe env message record socketWrapper h
  = (tt, h,
     [CanPerformAction (user socketWrapper) (withAction RA.READ message)
        (authData socketWrapper) socketWrapper;
      Subscribe (withAction RA.SUBSCRIBE message) socketWrapper;
      SendMessage socketWrapper
        {| topic := TOPIC.RECORD; action := RA.READ_RESPONSE;
           name := name message; originalAction := None;
           version := Some (_v record); path := None; data := None;
           parsedData := Some (_d record); isWriteAck := false;
           correlationId := None |} false]).
Proof.
  intros Hread. unfold readAndSubscribe.
  by rewrite (permissionAction_allowed _ _ _ _ _ _ _ Hread).
Qed.

(** X9. When READ is allowed, a SUBSCRIBE_CREATE_AND_READ is answered with
    one READ_RESPONSE that carries the record: for a record the request
    found, its version and data, after a READ check alone; for a record the
    request found absent, once CREATE is allowed and the cache took the
    write, version 0 and the empty object, after a CREATE and then a READ
    check.  The answer does not depend on the storage layer. *)
Theorem createOrRead_sends_the_record (env : Env)
    (socketWrapper : SocketWrapper) (message : Message) (h : RecordHandler) :
  canPerformAction env (user socketWrapper) (withAction RA.READ message)
    (authData socketWrapper) socketWrapper = (None, true) →
  let run := createOrRead env socketWrapper message h in
  let response record :=
    (socketWrapper,
     {| topic := TOPIC.RECORD; action := RA.READ_RESPONSE;
        name := name message; originalAction := None;
        version := Some (_v record); path := None; data := None;
        parsedData := Some (_d record); isWriteAck := false;
        correlationId := None |}) in
  (∀ record,
     requestOutcome env (name message) socketWrapper = Loaded (Some record) →
     sentMessages (trace run) = [response record]
     ∧ permissionChecks (trace run) = [RA.READ])
  ∧ (requestOutcome env (name message) socketWrapper = Loaded None →
     canPerformAction env (user socketWrapper) (withAction RA.CREATE message)
       (authData socketWrapper) socketWrapper = (None, true) →
     cacheSet env (name message) {| _v := 0; _d := JObj [] |} = None →
     sentMessages (trace run) = [response {| _v := 0; _d := JObj [] |}]
     ∧ permissionChecks (trace run) = [RA.CREATE; RA.READ]).
Proof.
  intros Hread run response. subst run. unfold createOrRead.
  rewrite recordRequest_run. cbv zeta. split.
  - intros record ->. by rewrite (readAndSubscribe_allowed _ _ _ _ _ Hread).
  - intros -> Hcreate Hcache.
    rewrite (permissionAction_allowed _ _ _ _ _ _ _ Hcreate).
    pose proof (readAndSubscribe_allowed env message
                  {| _v := 0; _d := JObj [] |} socketWrapper h Hread)
      as Hsub.
    unfold create. run_method. run_method_in Hsub. rewrite Hcache.
    destruct (cacheAnswersInSet env); rewrite ?Hsub; cbn [fst snd];
      destruct (isExcluded _ _); cbn [negb];
      try destruct (storageAnswersFirst env);
      try destruct (storageSet env _ _) as [se|];
      rewrite ?Hsub; done.
Qed.

Lemma createOrRead_sends_the_record_witness :
  let message := Sample.request RA.SUBSCRIBECREATEANDREAD "a/1" in
  let response v :=
    (Sample.alice,
     {| topic := TOPIC.RECORD; action := RA.READ_RESPONSE; name := "a/1";
        originalAction := None; version := Some v; path := None;
        data := None; parsedData := Some (JObj []); isWriteAck := false;
        correlationId := None |}) in
  let h := newRecordHandler Sample.plainConfig in
  sentMessages (trace (createOrRead Sample.stored Sample.alice message h))
  = [response 3%Z]
  ∧ sentMessages (trace (createOrRead Sample.calm Sample.alice message h))
    = [response 0%Z].
Proof.
  intros message response h. split.
  - apply (proj1 (createOrRead_sends_the_record Sample.stored Sample.alice
                    message h eq_refl)
             {| _v := 3; _d := JObj [] |} eq_refl).
  - apply (proj2 (createOrRead_sends_the_record Sample.calm Sample.alice
                    message h eq_refl) eq_refl eq_refl eq_refl).
Defined.

(** ** One-shot reads *)

(** X10. A READ and a HEAD are each answered with exactly one message, sent
    to the requester and naming the record, whether the record was found,
    found absent or could not be loaded.  Nothing else happens: no
    permission check, no subscription, no write, and the handler state is
    unchanged. *)
Theorem one_shot_reads_answer_once (env : Env) (socketWrapper : SocketWrapper)
    (message : Message) (h : RecordHandler) :
  (∃ reply,
     snapshot env socketWrapper message h
     = (tt, h, [RecordRequest (name message) socketWrapper;
                SendMessage socketWrapper reply false])
     ∧ name reply = name message)
  ∧ (∃ reply,
       head env socketWrapper message h
       = (tt, h, [RecordRequest (name message) socketWrapper;
                  SendMessage socketWrapper reply false])
       ∧ name reply = name message).
Proof.
  split.
  - unfold snapshot. rewrite recordRequest_run.
    destruct (requestOutcome env (name message) socketWrapper)
      as [[r|]|ev txt]; by eexists.
  - unfold head, headCall. rewrite recordRequest_run.
    destruct (requestOutcome env (name message) socketWrapper)
      as [[r|]|ev txt]; by eexists.
Qed.

(** X11. A SUBSCRIBE_AND_HEAD always subscribes the requester, with the
    action of the message set to SUBSCRIBE, and HEAD gives its one answer:
    also when the record is absent and when it could not be loaded, and
    without any permission check.  The subscription is made when [head]
    returns: it follows the answer when the load answered inside the call,
    and comes before it when the load answers later. *)
Theorem subscribeAndHead_always_subscribes (env : Env)
    (socketWrapper : SocketWrapper) (message : Message) (h : RecordHandler) :
  ∃ reply,
    subscribeAndHead env socketWrapper message h
    = (tt, h,
       RecordRequest (name message) socketWrapper
       :: (if requestAnswersInCall env
           then [SendMessage socketWrapper reply false;
                 Subscribe (withAction RA.SUBSCRIBE message) socketWrapper]
           else [Subscribe (withAction RA.SUBSCRIBE message) socketWrapper;
                 SendMessage socketWrapper reply false]))
    ∧ name reply = name message
    ∧ (action reply = RA.HEAD_RESPONSE
       ∨ ∃ event text,
           requestOutcome env (name message) socketWrapper
             = LoadFailed event text
           ∧ action reply = event).
Proof.
  unfold subscribeAndHead, headCall. rewrite recordRequest_then. cbv zeta.
  destruct (requestOutcome env (name message) socketWrapper)
    as [[r|]|ev txt]; eexists;
    (split; [by destruct (requestAnswersInCall env)|]);
    (split; [reflexivity|]); eauto.
Qed.

Lemma subscribeAndHead_always_subscribes_witness :
  let message := Sample.request RA.SUBSCRIBEANDHEAD "a/1" in
  let h := newRecordHandler Sample.plainConfig in
  let subscribe := Subscribe (withAction RA.SUBSCRIBE message) Sample.alice in
  (∃ reply,
     subscribeAndHead Sample.calm Sample.alice message h
     = (tt, h, [RecordRequest "a/1" Sample.alice; subscribe;
                SendMessage Sample.alice reply false]))
  ∧ (∃ reply,
       subscribeAndHead Cases.prompt Sample.alice message h
       = (tt, h, [RecordRequest "a/1" Sample.alice;
                  SendMessage Sample.alice reply false; subscribe])).
Proof.
  intros message h subscribe. split.
  - destruct (subscribeAndHead_always_subscribes Sample.calm Sample.alice
                message h) as (reply & Hrun & _).
    exists reply. exact Hrun.
  - destruct (subscribeAndHead_always_subscribes Cases.prompt Sample.alice
                message h) as (reply & Hrun & _).
    exists reply. exact Hrun.
Defined.

(** ** Deleting a record *)

Lemma forEach_calls {A} (l : list A) (f : A → Effect) h :
  forEach l (λ x, call (f x)) h = (tt, h, f <$> l).
Proof.
  revert h. induction l as [|x l IH]; intros h; [done|].
  cbn [forEach]. unfold andThen. rewrite IH. reflexivity.
Qed.

Lemma onDeleted_run env recordName message originalSender h :
  onDeleted env recordName message originalSender h
  = (tt, h,
     SendToSubscribers recordName message true originalSender
     :: ((λ subscriber, Unsubscribe message subscriber true)
           <$> getLocalSubscribers env recordName)).
Proof.
  unfold onDeleted, broadcastUpdate, andThen.
  cbn [call result after trace fst snd]. by rewrite forEach_calls.
Qed.

(** X12. A DELETE_SUCCESS from the message bus ([remoteDelete]) destroys the
    transition of the name if there is one, then broadcasts the message to
    the subscribers of the name with the no-delay flag, then unsubscribes
    every local subscriber of the name silently, in the order the registry
    lists them.  For a name without a transition that every object inherits,
    such as "constructor", the inherited value is taken for the transition:
    its [destroy] is a TypeError, and nothing is broadcast and nobody
    unsubscribed.  In every case no deletion is started, nothing is written,
    and the name is left without a transition. *)
Theorem remoteDelete_broadcasts_and_unsubscribes (env : Env)
    (socketWrapper : SocketWrapper) (message : Message) (h : RecordHandler) :
  let run := remoteDelete env socketWrapper message h in
  let told :=
    SendToSubscribers (name message) message true socketWrapper
    :: ((λ subscriber, Unsubscribe message subscriber true)
          <$> getLocalSubscribers env (name message)) in
  trace run
  = match transitions h !! name message, objectPrototype (name message) with
    | Some transition, _ => TransitionDestroy transition :: told
    | None, None => told
    | None, Some _ => [ThrowTypeError "destroy"]
    end
  ∧ transitions (after run) = delete (name message) (transitions h)
  ∧ recordRequestsInProgress (after run) = recordRequestsInProgress h.
Proof.
  intros run told. subst run told. unfold remoteDelete.
  rewrite trace_andThen, after_andThen. cbv beta.
  rewrite destroyTransition_run. unfold getProperty.
  destruct (transitions h !! name message) as [t|] eqn:Hentry;
    [|destruct (objectPrototype (name message)) as [len|]];
    cbn [trace after result fst snd]; rewrite ?onDeleted_run;
    cbn [trace after fst snd skip pure].
  - done.
  - split; [done|]. split; [|done]. by rewrite delete_id.
  - split; [done|]. split; [|done]. by rewrite delete_id.
Qed.

Lemma remoteDelete_broadcasts_and_unsubscribes_witness :
  let h := newRecordHandler Sample.plainConfig in
  trace (remoteDelete Cases.followed Cases.peer
           (Sample.request RA.DELETE_SUCCESS "r") Cases.busy)
  = [TransitionDestroy 0;
     SendToSubscribers "r" (Sample.request RA.DELETE_SUCCESS "r") true
       Cases.peer;
     Unsubscribe (Sample.request RA.DELETE_SUCCESS "r") Sample.alice true;
     Unsubscribe (Sample.request RA.DELETE_SUCCESS "r") Cases.bob true]
  ∧ trace (remoteDelete Cases.followed Cases.peer
             (Sample.request RA.DELETE_SUCCESS "constructor") h)
    = [ThrowTypeError "destroy"].
Proof.
  intros h. split.
  - apply (proj1 (remoteDelete_broadcasts_and_unsubscribes Cases.followed
                    Cases.peer (Sample.request RA.DELETE_SUCCESS "r")
                    Cases.busy)).
  - apply (proj1 (remoteDelete_broadcasts_and_unsubscribes Cases.followed
                    Cases.peer (Sample.request RA.DELETE_SUCCESS "constructor")
                    h)).
Defined.

(** X13. A DELETE destroys the transition of the name if there is one and
    then starts a record deletion for the message.  The subscribers are told
    and the local ones unsubscribed, as for a remote deletion, only when
    that deletion reports back; when it does not, nothing is broadcast and
    nobody is unsubscribed, and the transition stays destroyed and out of
    the table.  For a name without a transition that every object inherits,
    such as "constructor", the inherited value is taken for the transition:
    its [destroy] is a TypeError and no deletion is started. *)
Theorem delete_waits_for_the_deletion (env : Env)
    (socketWrapper : SocketWrapper) (message : Message) (h : RecordHandler) :
  let run := delete_ env socketWrapper message h in
  let deletion :=
    NewRecordDeletion socketWrapper message
    :: (if deletionCompletes env socketWrapper message
        then SendToSubscribers (name message) message true socketWrapper
             :: ((λ subscriber, Unsubscribe message subscriber true)
                   <$> getLocalSubscribers env (name message))
        else []) in
  trace run
  = match transitions h !! name message, objectPrototype (name message) with
    | Some transition, _ => TransitionDestroy transition :: deletion
    | None, None => deletion
    | None, Some _ => [ThrowTypeError "destroy"]
    end
  ∧ transitions (after run) = delete (name message) (transitions h).
Proof.
  intros run deletion. subst run deletion. unfold delete_.
  rewrite trace_andThen, after_andThen. cbv beta.
  rewrite destroyTransition_run. unfold getProperty.
  assert (∀ h', (call (NewRecordDeletion socketWrapper message);;;
                 if deletionCompletes env socketWrapper message
                 then onDeleted env (name message) message socketWrapper
                 else skip) h'
                = (tt, h',
                   NewRecordDeletion socketWrapper message
                   :: (if deletionCompletes env socketWrapper message
                       then SendToSubscribers (name message) message true
                              socketWrapper
                            :: ((λ subscriber, Unsubscribe message subscriber
                                                 true)
                                  <$> getLocalSubscribers env (name message))
                       else []))) as Hrest.
  { intros h'. unfold andThen. cbn [call result after trace fst snd].
    destruct (deletionCompletes env socketWrapper message); [|done].
    by rewrite onDeleted_run. }
  destruct (transitions h !! name message) as [t|] eqn:Hentry;
    [|destruct (objectPrototype (name message)) as [len|]];
    cbn [trace after result fst snd]; rewrite ?Hrest;
    cbn [trace after fst snd skip pure].
  - done.
  - split; [done|]. by rewrite delete_id.
  - split; [done|]. by rewrite delete_id.
Qed.

Lemma delete_waits_for_the_deletion_witness :
  let h := newRecordHandler Sample.plainConfig in
  trace (delete_ Sample.calm Sample.alice (Sample.request RA.DELETE "r")
           Cases.busy)
  = [TransitionDestroy 0;
     NewRecordDeletion Sample.alice (Sample.request RA.DELETE "r");
     SendToSubscribers "r" (Sample.request RA.DELETE "r") true Sample.alice]
  ∧ trace (delete_ Sample.calm Sample.alice
             (Sample.request RA.DELETE "constructor") h)
    = [ThrowTypeError "destroy"].
Proof.
  intros h. split.
  - apply (proj1 (delete_waits_for_the_deletion Sample.calm Sample.alice
                    (Sample.request RA.DELETE "r") Cases.busy)).
  - apply (proj1 (delete_waits_for_the_deletion Sample.calm Sample.alice
                    (Sample.request RA.DELETE "constructor") h)).
Defined.

(** ** The stability gate, further *)

(** X14. On a name that is read as it is stored and has no callback
    waiting, [runWhenRecordStable] followed by [removeRecordRequest] invokes
    the callback once, at registration, and leaves the name without an entry
    in the table of requests in progress, all other names as they were; a
    further [removeRecordRequest] invokes nothing and leaves the table as it
    is. *)
Theorem stability_gate_round_trip (h : RecordHandler) (recordName : string)
    (callback : Callback) :
  inheritedQueue recordName = false →
  pending h recordName = [] →
  let opened := runWhenRecordStable recordName callback h in
  let closed := removeRecordRequest recordName (after opened) in
  let again := removeRecordRequest recordName (after closed) in
  trace opened = [InvokeCallback callback recordName]
  ∧ trace closed = []
  ∧ recordRequestsInProgress (after closed)
    = delete recordName (recordRequestsInProgress h)
  ∧ trace again = []
  ∧ recordRequestsInProgress (after again)
    = recordRequestsInProgress (after closed).
Proof.
  intros Hsafe Hidle opened closed again. subst again closed opened.
  rewrite runWhenRecordStable_idle.
  2:{ unfold pending in Hidle.
      destruct (recordRequestsInProgress h !! recordName) as [q|];
        [left; cbn in Hidle; by subst q|by right]. }
  cbn [after trace fst snd].
  rewrite removeRecordRequest_empty
    by (left; cbn; by rewrite lookup_insert_eq).
  cbn [after trace fst snd setRequests recordRequestsInProgress].
  split; [done|]. split; [done|]. split; [by rewrite delete_insert_eq|].
  set (h' := setRequests _ _).
  assert (recordRequestsInProgress h' !! recordName = None) as Hgone.
  { subst h'. cbn. by rewrite lookup_delete_eq. }
  unfold removeRecordRequest, getProperty. run_method. rewrite Hgone.
  unfold inheritedQueue in Hsafe.
  destruct (objectPrototype recordName) as [[[|k]|]|]; try done.
  cbn. split; [done|]. by rewrite delete_id.
Qed.

Lemma stability_gate_round_trip_witness :
  let h := newRecordHandler Sample.plainConfig in
  recordRequestsInProgress
    (after (removeRecordRequest "r" (after (runWhenRecordStable "r" 7 h))))
  = delete "r" (recordRequestsInProgress h)
  ∧ recordRequestsInProgress
      (after (removeRecordRequest "toString"
                (after (runWhenRecordStable "toString" 7 h))))
    = delete "toString" (recordRequestsInProgress h).
Proof.
  intros h. split.
  - exact (proj1 (proj2 (proj2 (stability_gate_round_trip h "r" 7
                                  eq_refl eq_refl)))).
  - exact (proj1 (proj2 (proj2 (stability_gate_round_trip h "toString" 7
                                  eq_refl eq_refl)))).
Defined.

(** X15. A call of [runWhenRecordStable] or [removeRecordRequest] for one
    name leaves the queue of every other name, the table of transitions and
    the configuration as they were. *)
Theorem stability_gate_frame (h : RecordHandler) (recordName other : string)
    (c : GateCall) :
  other ≠ recordName →
  let h' := after (gateCall recordName c h) in
  recordRequestsInProgress h' !! other = recordRequestsInProgress h !! other
  ∧ transitions h' = transitions h
  ∧ nextTransition h' = nextTransition h
  ∧ config h' = config h.
Proof.
  intros Hother h'. subst h'.
  destruct c as [callback|]; cbn [gateCall];
    unfold runWhenRecordStable, removeRecordRequest, getProperty; run_method;
    destruct (recordRequestsInProgress h !! recordName) as [[|c q]|];
    try destruct (objectPrototype recordName) as [[[|k]|]|];
    cbn; by rewrite ?lookup_insert_ne, ?lookup_delete_ne.
Qed.

Lemma stability_gate_frame_witness :
  let h := setRequests <["a" := [4; 5]]>
             (newRecordHandler Sample.plainConfig) in
  recordRequestsInProgress (after (gateCall "b" (RunWhenRecordStable 7) h))
    !! "a" = Some [4; 5].
Proof.
  intros h.
  etrans;
    [apply (proj1 (stability_gate_frame h "b" "a" (RunWhenRecordStable 7)
                     ltac:(discriminate)))
    |reflexivity].
Defined.

Lemma idle_pending h recordName : idle h → pending h recordName = [].
Proof.
  intros Hidle. unfold pending.
  destruct (recordRequestsInProgress h !! recordName) as [q|] eqn:Hq; [|done].
  exact (Hidle _ _ Hq).
Qed.

Lemma gateCall_idle recordName c h :
  inheritedQueue recordName = false →
  idle h →
  idle (after (gateCall recordName c h))
  ∧ invokedCallbacks (trace (gateCall recordName c h)) = registered [c].
Proof.
  intros Hsafe Hidle. pose proof (idle_pending h recordName Hidle) as Hp.
  assert (∀ f, (∀ m : gmap string (list Callback),
                  f m = <[recordName := []]> m ∨ f m = delete recordName m) →
               idle (setRequests f h)) as Hstays.
  { intros f Hf n q. cbn. destruct (Hf (recordRequestsInProgress h)) as [-> | ->];
      destruct (decide (recordName = n)) as [->|Hne];
      rewrite ?lookup_insert_eq, ?lookup_insert_ne, ?lookup_delete_eq,
        ?lookup_delete_ne by done; try done.
    - by intros [= <-].
    - apply Hidle.
    - apply Hidle. }
  destruct c as [callback|]; cbn [gateCall].
  - rewrite runWhenRecordStable_idle.
    + split; [|done]. apply Hstays. by left.
    + unfold pending in Hp.
      destruct (recordRequestsInProgress h !! recordName) as [q|];
        [left; cbn in Hp; by subst q|by right].
  - destruct (removeRecordRequest_idle h recordName Hp Hsafe) as [Htrace _].
    rewrite Htrace. split; [|done].
    unfold removeRecordRequest, getProperty. run_method.
    unfold pending in Hp. unfold inheritedQueue in Hsafe.
    destruct (recordRequestsInProgress h !! recordName) as [[|c q]|];
      try discriminate Hp;
      try destruct (objectPrototype recordName) as [[[|k]|]|];
      try discriminate Hsafe; cbn [after fst snd];
      first [exact Hidle | apply Hstays; by right].
Qed.

(** X16. On names that are read as they are stored, the two gate methods
    never make a callback wait on their own.  From a state in which no
    callback waits, such as the state the constructor builds, any run of
    [runWhenRecordStable] and [removeRecordRequest] calls on such names ends
    in a state in which no callback waits, and every callback handed to
    [runWhenRecordStable] was invoked during its own call, so the callbacks
    are invoked in the order of the calls. *)
Theorem stability_gate_never_defers (cs : list (string * GateCall))
    (h : RecordHandler) :
  Forall (λ c, inheritedQueue c.1 = false) cs →
  idle h →
  idle (after (gateRun cs h))
  ∧ invokedCallbacks (trace (gateRun cs h)) = registered (cs.*2).
Proof.
  intros Hsafe. revert h.
  induction Hsafe as [|[n c] cs Hn _ IH]; intros h Hidle; [done|].
  change (gateRun ((n, c) :: cs) h)
    with (andThen (gateCall n c) (λ _, gateRun cs) h).
  rewrite after_andThen, trace_andThen, invokedCallbacks_app.
  destruct (gateCall_idle n c h Hn Hidle) as [Hidle' ->].
  destruct (IH _ Hidle') as [Hfinal ->]. split; [exact Hfinal|].
  cbn [fmap list_fmap snd]. by rewrite (registered_cons c (cs.*2)).
Qed.

Lemma stability_gate_never_defers_witness :
  let cs := [("a", RunWhenRecordStable 1); ("a", RunWhenRecordStable 2);
             ("b", RunWhenRecordStable 3); ("a", RemoveRecordRequest);
             ("a", RunWhenRecordStable 4)] in
  invokedCallbacks
    (trace (gateRun cs (newRecordHandler Sample.plainConfig)))
  = [1; 2; 3; 4].
Proof.
  intros cs.
  refine (proj2 (stability_gate_never_defers cs
                   (newRecordHandler Sample.plainConfig) _ _)).
  - repeat constructor.
  - intros n q. cbn. rewrite lookup_empty. discriminate.
Defined.

(** ** Create and update, off the hot path *)

Lemma permissionChecks_app tr1 tr2 :
  permissionChecks (tr1 ++ tr2) = permissionChecks tr1 ++ permissionChecks tr2.
Proof. apply omap_app. Qed.

Lemma createAndUpdate_cold env socketWrapper message h :
  storageHotPathPrefixes (config h) = []
  ∨ (path message = None
     ∧ matchesHotPath (storageHotPathPrefixes (config h)) (name message)
       = false) →
  let message' := withAction (writeAction message) message in
  createAndUpdate env socketWrapper message h
  = match getProperty (transitions h) (name message) with
    | Own transition =>
        permissionAction env (writeAction message) message' (action message)
          socketWrapper
          (call (TransitionAdd transition socketWrapper message' None)) h
    | Inherited _ =>
        permissionAction env (writeAction message) message' (action message)
          socketWrapper (call (ThrowTypeError "add")) h
    | Undefined =>
        permissionAction env RA.CREATE message' (action message) socketWrapper
          (permissionAction env RA.UPDATE message' (action message)
             socketWrapper (update env socketWrapper message' true)) h
    end.
Proof.
  intros Hcold message'.
  assert (hotPathLoop env (storageHotPathPrefixes (config h)) (name message)
            (bool_decide (is_Some (path message))) message' (action message)
            socketWrapper h = (false, h, [])) as Hloop.
  { destruct Hcold as [-> | [Hpath Hmatch]]; [done|].
    rewrite Hpath. change (bool_decide (is_Some (@None string))) with false.
    by rewrite hotPathLoop_update, Hmatch. }
  unfold createAndUpdate. fold (writeAction message). fold message'.
  run_method. rewrite Hloop. run_method.
  destruct (getProperty (transitions h) (name message)) as [t|len|].
  - by destruct (permissionAction _ _ _ _ _ _ h) as [[[] ?] ?].
  - by destruct (permissionAction _ _ _ _ _ _ h) as [[[] ?] ?].
  - by destruct (permissionAction _ _ _ _ _ _ h) as [[[] ?] ?].
Qed.



(** X18. Off the hot path and for a name that has a transition, a
    CREATE_AND_UPDATE or CREATE_AND_PATCH is checked once, for PATCH when it
    has a path and for UPDATE when it has none, and never for CREATE; when
    allowed, the message with that action is added to the transition in the
    table, without an upsert flag and without asking the transition whether
    it has the version.  The handler state is unchanged in every case, for a
    local and for a remote sender alike. *)
Theorem createAndUpdate_joins_the_transition (env : Env)
    (socketWrapper : SocketWrapper) (message : Message) (h : RecordHandler)
    (transition : TransitionRef) :
  storageHotPathPrefixes (config h) = []
  ∨ (path message = None
     ∧ matchesHotPath (storageHotPathPrefixes (config h)) (name message)
       = false) →
  transitions h !! name message = Some transition →
  let message' := withAction (writeAction message) message in
  let run := createAndUpdate env socketWrapper message h in
  after run = h
  ∧ permissionChecks (trace run) = [writeAction message]
  ∧ (canPerformAction env (user socketWrapper) message'
       (authData socketWrapper) socketWrapper = (None, true) →
     trace run
     = [CanPerformAction (user socketWrapper) message'
          (authData socketWrapper) socketWrapper;
        TransitionAdd transition socketWrapper message' None]).
Proof.
  intros Hcold Hentry message' run. subst run.
  rewrite (createAndUpdate_cold _ _ _ _ Hcold),
    (getProperty_own _ _ _ Hentry).
  fold message'.
  assert (withAction (writeAction message) message' = message') as Hsame
    by done.
  assert (canPerformAction env (user socketWrapper) message'
            (authData socketWrapper) socketWrapper = (None, true)
          ∨ canPerformAction env (user socketWrapper)
              (withAction (writeAction message) message')
              (authData socketWrapper) socketWrapper ≠ (None, true))
    as [Hok|Hno].
  { rewrite Hsame. destruct (canPerformAction env _ _ _ _) as [[err|] [|]];
      (by left) || (by right). }
  - rewrite <- Hsame in Hok.
    rewrite (permissionAction_allowed _ _ _ _ _ _ _ Hok). rewrite Hsame.
    by cbn.
  - destruct (permissionAction_refused env (writeAction message) message'
                (action message) socketWrapper
                (call (TransitionAdd transition socketWrapper message' None))
                h Hno) as (err & reply & -> & _).
    rewrite Hsame in *. cbn [after trace fst snd].
    split; [done|]. split; [by destruct err|]. intros Hok. by destruct Hno.
Qed.

Lemma createAndUpdate_joins_the_transition_witness :
  let message := Sample.request RA.CREATEANDUPDATE "r" in
  trace (createAndUpdate Sample.calm Cases.peer message Cases.busy)
  = [CanPerformAction "peer" (withAction RA.UPDATE message) JNull Cases.peer;
     TransitionAdd 0 Cases.peer (withAction RA.UPDATE message) None].
Proof.
  intros message.
  apply (proj2 (proj2 (createAndUpdate_joins_the_transition Sample.calm
                         Cases.peer message Cases.busy 0 (or_introl eq_refl)
                         eq_refl))).
  reflexivity.
Defined.

(** ** The table of transitions, further *)

Lemma TableChange_injective h h' tr :
  TableChange h h' tr → numbered h →
  (∀ n1 n2 ref, transitions h !! n1 = Some ref →
                transitions h !! n2 = Some ref → n1 = n2) →
  ∀ n1 n2 ref, transitions h' !! n1 = Some ref →
               transitions h' !! n2 = Some ref → n1 = n2.
Proof.
  intros [Ht _ _|n0 Hno Ht _ _|n0 ref0 _ Ht _ _] Hnum Hinj n1 n2 ref;
    rewrite Ht.
  - apply Hinj.
  - destruct (decide (n0 = n1)) as [e1|Hne1], (decide (n0 = n2)) as [e2|Hne2];
      try subst n1; try subst n2;
      rewrite ?lookup_insert_eq, ?lookup_insert_ne by done; try done.
    + intros [= <-] Hother. by destruct (numbered_fresh h n2 Hnum).
    + intros Hother [= <-]. by destruct (numbered_fresh h n1 Hnum).
    + apply Hinj.
  - destruct (decide (n0 = n1)) as [e1|Hne1], (decide (n0 = n2)) as [e2|Hne2];
      try subst n1; try subst n2;
      rewrite ?lookup_delete_eq, ?lookup_delete_ne by done; try done.
    apply Hinj.
Qed.

(** X19. However the handler is driven through its public methods from the
    state its constructor builds, no transition object is ever entered in
    the table under two names, and every object in the table was made by an
    earlier [new RecordTransition]: its number is below the number of the
    next object to make. *)
Theorem transition_objects_are_not_shared (cfg : DeepstreamConfig)
    (h : RecordHandler) :
  reachable cfg h →
  (∀ n1 n2 ref, transitions h !! n1 = Some ref →
                transitions h !! n2 = Some ref → n1 = n2)
  ∧ (∀ n ref, transitions h !! n = Some ref → ref < nextTransition h).
Proof.
  intros Hreach. split; [|exact (reachable_numbered _ _ Hreach)].
  induction Hreach as [|h c Hreach IH].
  - intros n1 n2 ref. cbn. by rewrite lookup_empty.
  - pose proof (reachable_numbered _ _ Hreach) as Hnum.
    destruct (classic_call c) as [[n ->]|Hc].
    + intros n1 n2 ref. cbn.
      destruct (decide (n = n1)) as [e1|Hne1], (decide (n = n2)) as [e2|Hne2];
        try subst n1; try subst n2;
        rewrite ?lookup_delete_eq, ?lookup_delete_ne by done; try done.
      apply IH.
    + exact (TableChange_injective h _ _ (alters_invoke c Hc h) Hnum IH).
Qed.

Lemma transition_objects_are_not_shared_witness :
  let h := after (handle Sample.calm Sample.alice
                    (Sample.request RA.UPDATE "s") Cases.busy) in
  transitions h !! "r" = Some 0 ∧ transitions h !! "s" = Some 1
  ∧ (∀ n, transitions h !! n = Some 1 → n = "s").
Proof.
  intros h.
  assert (transitions h !! "s" = Some 1) as Hs by (vm_compute; reflexivity).
  split; [vm_compute; reflexivity|]. split; [exact Hs|].
  intros n Hn.
  exact (proj1 (transition_objects_are_not_shared Sample.plainConfig h
                  (reachable_call _ _
                     (Handle Sample.calm Sample.alice
                        (Sample.request RA.UPDATE "s"))
                     (reachable_call _ _
                        (Handle Sample.calm Sample.alice
                           (Sample.request RA.UPDATE "r"))
                        (reachable_new _))))
           n "s" 1 Hn Hs).
Defined.

(** ** The hot path and the table *)

(** X20. A CREATE_AND_UPDATE on the hot path goes past the table of
    transitions: the handler state is unchanged, no transition is made,
    destroyed or called, also when the name has one, and the only message
    handed on is the broadcast to the subscribers.  When the CREATE or the
    UPDATE check is refused, nothing is written and nothing is broadcast. *)
Theorem hot_path_bypasses_the_table (env : Env) (socketWrapper : SocketWrapper)
    (message : Message) (h : RecordHandler) :
  path message = None →
  matchesHotPath (storageHotPathPrefixes (config h)) (name message) = true →
  let allowed a :=
    canPerformAction env (user socketWrapper) (withAction a message)
      (authData socketWrapper) socketWrapper = (None, true) in
  let run := createAndUpdate env socketWrapper message h in
  after run = h
  ∧ tableEvents (trace run) = []
  ∧ (∀ e msg, e ∈ trace run → forwarded e = Some msg →
       e = SendToSubscribers (name message) msg false socketWrapper)
  ∧ (¬ (allowed RA.CREATE ∧ allowed RA.UPDATE) →
     backendWrites (trace run) = []
     ∧ ∀ e, e ∈ trace run → forwarded e = None).
Proof.
  intros Hpath Hmatch allowed run. subst run.
  rewrite (createAndUpdate_hot env _ _ _ Hpath Hmatch). unfold hotPathWrite.
  set (message' := withAction RA.UPDATE message).
  assert (∀ a, allowed a
               ∨ canPerformAction env (user socketWrapper)
                   (withAction a message') (authData socketWrapper)
                   socketWrapper ≠ (None, true)) as Hcases.
  { intros a. subst allowed. cbv beta.
    change (withAction a message') with (withAction a message).
    destruct (canPerformAction env _ _ _ _) as [[err|] [|]];
      (by left) || (by right). }
  assert (∀ check (err : option Error) reply,
            let tr :=
              check
              ++ match err with
                 | Some er =>
                     [LoggerError (LogRA RA.MESSAGE_PERMISSION_ERROR)
                        (DError er)]
                 | None => []
                 end
              ++ [SendMessage socketWrapper reply false] in
            (∀ e, e ∈ check → forwarded e = None) →
            tableEvents check = [] → backendWrites check = [] →
            tableEvents tr = [] ∧ backendWrites tr = []
            ∧ ∀ e, e ∈ tr → forwarded e = None) as Hrefusal.
  { intros check err reply tr Hfwd Hte Hbw. subst tr.
    rewrite tableEvents_app, backendWrites_app, Hte, Hbw.
    split; [by destruct err|]. split; [by destruct err|].
    intros e [Hin|Hin]%elem_of_app; [by apply Hfwd|].
    destruct err as [er|]; cbn [app] in Hin;
      repeat (apply elem_of_cons in Hin as [->|Hin]; [done|]);
      by apply elem_of_nil in Hin. }
  destruct (Hcases RA.CREATE) as [Hcreate|Hcreate].
  - rewrite (permissionAction_allowed env RA.CREATE message' _ _ _ _ Hcreate).
    destruct (Hcases RA.UPDATE) as [Hupdate|Hupdate].
    + rewrite (permissionAction_allowed env RA.UPDATE message' _ _ _ _
                 Hupdate).
      destruct (forceWrite_hands_on env (name message) message' socketWrapper
                  h) as (Hstate & Hte & Hfwd).
      cbn [after result trace fst snd]. split; [exact Hstate|].
      split; [exact Hte|]. split; [|by intros []].
      intros e msg Hin Hmsg.
      do 2 (apply elem_of_cons in Hin as [->|Hin]; [done|]).
      by apply Hfwd.
    + destruct (permissionAction_refused env RA.UPDATE message'
                  (action message) socketWrapper
                  (forceWrite env (name message) message' socketWrapper)
                  h Hupdate) as (err & reply & -> & _).
      cbn [after result trace fst snd]. split; [done|].
      destruct (Hrefusal
                  [CanPerformAction (user socketWrapper)
                     (withAction RA.CREATE message') (authData socketWrapper)
                     socketWrapper;
                   CanPerformAction (user socketWrapper)
                     (withAction RA.UPDATE message') (authData socketWrapper)
                     socketWrapper] err reply) as (Hte & Hbw & Hfwd);
        [|done|done|].
      { intros e Hin.
        repeat (apply elem_of_cons in Hin as [->|Hin]; [done|]).
        by apply elem_of_nil in Hin. }
      split; [exact Hte|]. split; [|by intros _].
      intros e msg Hin Hmsg. by rewrite (Hfwd e Hin) in Hmsg.
  - destruct (permissionAction_refused env RA.CREATE message'
                (action message) socketWrapper
                (permissionAction env RA.UPDATE message' (action message)
                   socketWrapper
                   (forceWrite env (name message) message' socketWrapper))
                h Hcreate) as (err & reply & -> & _).
    cbn [after result trace fst snd]. split; [done|].
    destruct (Hrefusal
                [CanPerformAction (user socketWrapper)
                   (withAction RA.CREATE message') (authData socketWrapper)
                   socketWrapper] err reply) as (Hte & Hbw & Hfwd);
      [|done|done|].
    { intros e Hin.
      repeat (apply elem_of_cons in Hin as [->|Hin]; [done|]).
      by apply elem_of_nil in Hin. }
    split; [exact Hte|]. split; [|by intros _].
    intros e msg Hin Hmsg. by rewrite (Hfwd e Hin) in Hmsg.
Qed.

Lemma hot_path_bypasses_the_table_witness :
  let message := Sample.request RA.CREATEANDUPDATE "hot/r" in
  let h := after (handle Sample.calm Sample.alice
                    (Sample.request RA.UPDATE "hot/r")
                    (newRecordHandler Sample.hotConfig)) in
  transitions h !! "hot/r" = Some 0
  ∧ after (createAndUpdate Sample.calm Sample.alice message h) = h
  ∧ backendWrites (trace (createAndUpdate Sample.denying Sample.alice message h))
    = [].
Proof.
  intros message h. split; [vm_compute; reflexivity|]. split.
  - exact (proj1 (hot_path_bypasses_the_table Sample.calm Sample.alice
                    message h eq_refl eq_refl)).
  - apply (proj2 (proj2 (proj2 (hot_path_bypasses_the_table Sample.denying
                                  Sample.alice message h eq_refl eq_refl)))).
    intros [Hcreate _]. discriminate Hcreate.
Defined.
